(** * Garuda accelerator: the cocotb MAC harness and the CVA6 file-list extractor

    A shallow embedding of [garuda/dv/test_mac.py] (module [TestMac]) and of
    [integration/extract_cva6_files.py] (module [ExtractCva6Files]), followed
    by the properties proved about them.

    Python integers are unbounded, so they are embedded as [Z]; the operators
    [&], [|], [<<] and [>>] are [Z.land], [Z.lor], [Z.shiftl] and [Z.shiftr],
    which agree with Python on negative numbers (infinite two's complement,
    arithmetic right shift).  A Python list of integers is a [list Z], and
    [l[i]] is the partial lookup [l !! i]: an index past the end raises
    [IndexError], which the embedding keeps as [None]. *)

From Stdlib Require Import ZArith List String Ascii Lia Bool DecimalString.
From stdpp Require Import gmap strings list fin_maps.
Import ListNotations.

(* ===================================================================== *)
(** * Part I: definitions                                                 *)
(* ===================================================================== *)

Module TestMac.

Local Open Scope Z_scope.

(** ** Opcode constants (from int8_mac_instr_pkg.sv) *)

Definition OP_ILLEGAL  : Z := 0.
Definition OP_MAC8     : Z := 1.
Definition OP_MAC8_ACC : Z := 2.
Definition OP_MUL8     : Z := 3.
Definition OP_CLIP8    : Z := 4.
Definition OP_SIMD_DOT : Z := 5.

(** ** Python helpers *)

(** [range(n)]: the integers 0, 1, ..., n-1 in order. *)
Definition range (n : nat) : list Z := map Z.of_nat (seq 0 n).

(** [l[i]] for an index produced by [range]; [None] stands for IndexError. *)
Definition getitem (l : list Z) (i : Z) : option Z := l !! Z.to_nat i.

(** ** [get_signed_bytes] *)

(** One turn of the loop body of [get_signed_bytes]. *)
Definition get_signed_bytes_step (val : Z) (bytes_list : list Z) (i : Z) : list Z :=
  let byte := Z.land (Z.shiftr val (i * 8)) 255 in
  let byte := if byte >=? 128 then byte - 256 else byte in
  bytes_list ++ [byte].

(** Extract 4 signed bytes from a 32-bit integer. *)
Definition get_signed_bytes (val : Z) : list Z :=
  fold_left (get_signed_bytes_step val) (range 4) [].

(** ** The packing loop of [test_simd_dot] (lines 54-58)

    Both operand words are built in the same loop, starting from 0. *)
Definition pack_step (rs1_bytes rs2_bytes : list Z)
    (st : option (Z * Z)) (b_idx : Z) : option (Z * Z) :=
  '(rs1_val, rs2_val) ← st;
  b1 ← getitem rs1_bytes b_idx;
  let rs1_val := Z.lor rs1_val (Z.shiftl (Z.land b1 255) (b_idx * 8)) in
  b2 ← getitem rs2_bytes b_idx;
  let rs2_val := Z.lor rs2_val (Z.shiftl (Z.land b2 255) (b_idx * 8)) in
  Some (rs1_val, rs2_val).

Definition pack_operands (rs1_bytes rs2_bytes : list Z) : option (Z * Z) :=
  fold_left (pack_step rs1_bytes rs2_bytes) (range 4) (Some (0, 0)).

(** ** The golden model of [test_simd_dot] (lines 82-93) *)

Definition dot_step (rs1_bytes rs2_bytes : list Z)
    (st : option Z) (b : Z) : option Z :=
  dot_product ← st;
  x ← getitem rs1_bytes b;
  y ← getitem rs2_bytes b;
  Some (dot_product + x * y).

Definition dot_product (rs1_bytes rs2_bytes : list Z) : option Z :=
  fold_left (dot_step rs1_bytes rs2_bytes) (range 4) (Some 0).

(** "Handle 32-bit overflow for python comparison": one conditional
    subtraction or addition of 2^32. *)
Definition handle_overflow (expected : Z) : Z :=
  if expected >? 2147483647 then expected - 4294967296
  else if expected <? -2147483648 then expected + 4294967296
  else expected.

Definition simd_dot_expected (rs1_bytes rs2_bytes : list Z) (acc_val : Z)
    : option Z :=
  dot ← dot_product rs1_bytes rs2_bytes;
  let expected := dot + acc_val in
  Some (handle_overflow expected).

(** ** The golden model of [test_mac8_legacy] (line 126) *)

Definition mac8_expected (rs1_byte rs2_byte acc_byte : Z) : Z :=
  (rs1_byte * rs2_byte) + acc_byte.

(** ** The arithmetic laws, as the specification words them *)

(** A signed byte, and a signed 32-bit integer. *)
Definition int8 (b : Z) : Prop := -128 <= b <= 127.
Definition int32 (a : Z) : Prop := -2147483648 <= a <= 2147483647.

(** "Σ rs1[i]*rs2[i]": the lane-wise dot product in full precision. *)
Definition lane_dot (rs1_bytes rs2_bytes : list Z) : Z :=
  foldr Z.add 0 (zip_with Z.mul rs1_bytes rs2_bytes).

(** "x mod 2^32 mapped back into signed 32-bit range". *)
Definition wrap_signed32 (x : Z) : Z :=
  let m := x mod 4294967296 in
  if m <? 2147483648 then m else m - 4294967296.

(** "the sign-extension of x mod 256 interpreted as signed 8-bit". *)
Definition sign_extend8 (x : Z) : Z :=
  let m := x mod 256 in
  if m <? 128 then m else m - 256.

(** A word packed "via (byte & 0xFF) << (8*i)", lane after lane. *)
Definition pack_word (bytes : list Z) : Z :=
  (fold_left
     (fun '(word, i) b => (Z.lor word (Z.shiftl (Z.land b 255) (i * 8)), i + 1))
     bytes (0, 0)).1.

(** The word the loop builds from four lanes. *)
Definition word4 (a b c d : Z) : Z :=
  Z.lor (Z.lor (Z.lor (Z.lor 0
    (Z.shiftl (Z.land a 255) (0 * 8)))
    (Z.shiftl (Z.land b 255) (1 * 8)))
    (Z.shiftl (Z.land c 255) (2 * 8)))
    (Z.shiftl (Z.land d 255) (3 * 8)).

(** ** Text of the diagnostics *)

(** [str(n)] of a Python integer: decimal, with a leading minus sign. *)
Definition repr_int (n : Z) : string := NilZero.string_of_int (Z.to_int n).

Fixpoint join (sep : string) (parts : list string) : string :=
  match parts with
  | [] => EmptyString
  | [s] => s
  | s :: rest => s +:+ sep +:+ join sep rest
  end.

(** [str(l)] of a Python list of integers, as in [[1, -2, 3]]. *)
Definition repr_list (l : list Z) : string :=
  "[" +:+ join ", " (map repr_int l) +:+ "]".

Definition newline : string := String (ascii_of_nat 10) EmptyString.

(** The f-string of lines 101-102. *)
Definition mismatch_message (i : Z) (rs1_bytes rs2_bytes : list Z)
    (acc_val expected got : Z) : string :=
  "Iter " +:+ repr_int i +:+ ": Mismatch! rs1=" +:+ repr_list rs1_bytes
  +:+ ", rs2=" +:+ repr_list rs2_bytes +:+ ", acc=" +:+ repr_int acc_val
  +:+ newline
  +:+ "Expected: " +:+ repr_int expected +:+ ", Got: " +:+ repr_int got.

(** The f-string of line 99 (it has no placeholder). *)
Definition invalid_message : string := "Output should be valid for SIMD_DOT".

(** The f-string of line 131. *)
Definition mac8_message (expected got : Z) : string :=
  "MAC8 failed. Expected " +:+ repr_int expected +:+ ", got " +:+ repr_int got.

(** [sub in s] on Python strings. *)
Fixpoint contains (sub s : string) : bool :=
  String.prefix sub s ||
  match s with
  | EmptyString => false
  | String _ s' => contains sub s'
  end.

(** ** The device under test, as cocotb shows it to a test *)

Inductive port : Type :=
  | rst_ni | rs1_i | rs2_i | rd_i | opcode_i | hartid_i | id_i | rd_addr_i
  | clk_i | result_o | valid_o.

#[export] Instance port_eq_dec : EqDecision port.
Proof. solve_decision. Defined.

Inductive exn : Type :=
  | AssertionError (msg : string)
  | IndexError.

(** A coroutine of the harness: a tree of the requests it makes to the
    simulator and to the [random] module, ending in a value or an uncaught
    exception. *)
Inductive prog (A : Type) : Type :=
  | Ret (a : A)
  | Raise (e : exn)
  | StartClock (period_ns : Z) (k : prog A)
      (* cocotb.start_soon(Clock(dut.clk_i, period, units="ns").start()) *)
  | SetValue (p : port) (v : Z) (k : prog A)         (* dut.p.value = v *)
  | AwaitTimer (ns : Z) (k : prog A)          (* await Timer(ns, units="ns") *)
  | AwaitRisingEdge (k : prog A)              (* await RisingEdge(dut.clk_i) *)
  | GetValue (p : port) (k : Z -> prog A)            (* dut.p.value *)
  | GetSignedInteger (p : port) (k : Z -> prog A)
      (* dut.p.value.signed_integer *)
  | RandInt (lo hi : Z) (k : Z -> prog A)            (* random.randint(lo, hi) *)
  | LogInfo (msg : string) (k : prog A).             (* dut._log.info(msg) *)

Arguments Ret {A} a.
Arguments Raise {A} e.
Arguments StartClock {A} period_ns k.
Arguments SetValue {A} p v k.
Arguments AwaitTimer {A} ns k.
Arguments AwaitRisingEdge {A} k.
Arguments GetValue {A} p k.
Arguments GetSignedInteger {A} p k.
Arguments RandInt {A} lo hi k.
Arguments LogInfo {A} msg k.

Fixpoint bind {A B : Type} (m : prog A) (f : A -> prog B) : prog B :=
  match m with
  | Ret a => f a
  | Raise e => Raise e
  | StartClock t k => StartClock t (bind k f)
  | SetValue p v k => SetValue p v (bind k f)
  | AwaitTimer t k => AwaitTimer t (bind k f)
  | AwaitRisingEdge k => AwaitRisingEdge (bind k f)
  | GetValue p k => GetValue p (fun v => bind (k v) f)
  | GetSignedInteger p k => GetSignedInteger p (fun v => bind (k v) f)
  | RandInt lo hi k => RandInt lo hi (fun v => bind (k v) f)
  | LogInfo msg k => LogInfo msg (bind k f)
  end.

#[export] Instance prog_ret : MRet prog := @Ret.
#[export] Instance prog_bind : MBind prog := fun A B f m => bind m f.

(** The single requests, as statements. *)
Definition start_clock (period_ns : Z) : prog unit := StartClock period_ns (Ret tt).
Definition set_value (p : port) (v : Z) : prog unit := SetValue p v (Ret tt).
Definition await_timer (ns : Z) : prog unit := AwaitTimer ns (Ret tt).
Definition await_rising_edge : prog unit := AwaitRisingEdge (Ret tt).
Definition get_value (p : port) : prog Z := GetValue p Ret.
Definition get_signed_integer (p : port) : prog Z := GetSignedInteger p Ret.
Definition randint (lo hi : Z) : prog Z := RandInt lo hi Ret.
Definition log_info (msg : string) : prog unit := LogInfo msg (Ret tt).

(** [assert cond, msg]. *)
Definition py_assert (cond : bool) (msg : string) : prog unit :=
  if cond then Ret tt else Raise (AssertionError msg).

(** A list computation whose [None] is an IndexError. *)
Definition lift_index {A : Type} (o : option A) : prog A :=
  match o with
  | Some a => Ret a
  | None => Raise IndexError
  end.

(** [for x in xs: body(x)]. *)
Fixpoint for_each {A : Type} (xs : list A) (body : A -> prog unit) : prog unit :=
  match xs with
  | [] => Ret tt
  | x :: xs' => body x;; for_each xs' body
  end.

(** [[random.randint(lo, hi) for _ in range(n)]]. *)
Fixpoint randint_list (n : nat) (lo hi : Z) : prog (list Z) :=
  match n with
  | O => Ret []
  | S n' => x ← randint lo hi; xs ← randint_list n' lo hi; Ret (x :: xs)
  end.

(** ** [reset_dut] *)

Definition reset_dut : prog unit :=
  set_value rst_ni 0;;
  set_value rs1_i 0;;
  set_value rs2_i 0;;
  set_value rd_i 0;;
  set_value opcode_i 0;;
  set_value hartid_i 0;;
  set_value id_i 0;;
  set_value rd_addr_i 0;;
  await_timer 20;;
  set_value rst_ni 1;;
  await_rising_edge.

(** ** [test_simd_dot] *)

(** The body of the loop [for i in range(1000)]. *)
Definition simd_dot_iteration (i : Z) : prog unit :=
  (* Generate inputs *)
  rs1_bytes ← randint_list 4 (-128) 127;
  rs2_bytes ← randint_list 4 (-128) 127;
  acc_val ← randint (-2147483648) 2147483647;
  (* Pack into 32-bit integers *)
  '(rs1_val, rs2_val) ← lift_index (pack_operands rs1_bytes rs2_bytes);
  (* Drive DUT *)
  set_value rs1_i rs1_val;;
  set_value rs2_i rs2_val;;
  set_value rd_i acc_val;;
  set_value opcode_i OP_SIMD_DOT;;
  (* Wait for clock edge *)
  await_rising_edge;;
  (* Need to wait one clock cycle for the pipeline *)
  await_rising_edge;;
  (* Calculate Expected Model *)
  expected ← lift_index (simd_dot_expected rs1_bytes rs2_bytes acc_val);
  (* Check Output *)
  got ← get_signed_integer result_o;
  valid ← get_value valid_o;
  py_assert (valid =? 1) invalid_message;;
  py_assert (got =? expected)
    (mismatch_message i rs1_bytes rs2_bytes acc_val expected got).

Definition test_simd_dot : prog unit :=
  start_clock 10;;
  reset_dut;;
  for_each (range 1000) simd_dot_iteration;;
  log_info "SIMD_DOT verification passed (1000 vectors)".

(** ** [test_mac8_legacy] *)

Definition test_mac8_legacy : prog unit :=
  start_clock 10;;
  reset_dut;;
  let rs1_byte := 10 in
  let rs2_byte := -5 in
  let acc_byte := 20 in
  set_value rs1_i (Z.land rs1_byte 255);;
  set_value rs2_i (Z.land rs2_byte 255);;
  set_value rd_i (Z.land acc_byte 255);;
  set_value opcode_i OP_MAC8;;
  await_rising_edge;;
  await_rising_edge;;
  let expected := mac8_expected rs1_byte rs2_byte acc_byte in
  got ← get_signed_integer result_o;
  py_assert (got =? expected) (mac8_message expected got).

(** ** Running a test against a simulator *)

(** What a run leaves behind, request by request, with the answers. *)
Inductive event : Type :=
  | EvStartClock (period_ns : Z)
  | EvSet (p : port) (v : Z)
  | EvTimer (ns : Z)
  | EvRisingEdge
  | EvGet (p : port) (v : Z)
  | EvGetSigned (p : port) (v : Z)
  | EvRandInt (lo hi v : Z)
  | EvLog (msg : string).

#[export] Instance event_eq_dec : EqDecision event.
Proof. solve_decision. Defined.

(** The simulation engine with the device in it and the [random] module, as
    functions on a state [W] of their own.  Reading a port does not change
    the state. *)
Record simulator (W : Type) : Type := {
  sim_start_clock : Z -> W -> W;
  sim_set : port -> Z -> W -> W;
  sim_timer : Z -> W -> W;
  sim_rising_edge : W -> W;
  sim_get : port -> W -> Z;
  sim_get_signed : port -> W -> Z;
  sim_randint : Z -> Z -> W -> Z * W
}.

Arguments sim_start_clock {W} s _ _.
Arguments sim_set {W} s _ _ _.
Arguments sim_timer {W} s _ _.
Arguments sim_rising_edge {W} s _.
Arguments sim_get {W} s _ _.
Arguments sim_get_signed {W} s _ _.
Arguments sim_randint {W} s _ _ _.

(** [random.randint(lo, hi)] returns an integer N with lo <= N <= hi. *)
Definition randint_in_range {W : Type} (sim : simulator W) : Prop :=
  forall lo hi w, lo <= hi -> lo <= (sim_randint sim lo hi w).1 <= hi.

Definition outcome (W A : Type) : Type := (list event * (exn + A) * W)%type.

Definition emit {W A : Type} (e : event) (o : outcome W A) : outcome W A :=
  let '(tr, r, w) := o in (e :: tr, r, w).

Fixpoint run {W A : Type} (sim : simulator W) (m : prog A) (w : W)
    : outcome W A :=
  match m with
  | Ret a => ([], inr a, w)
  | Raise e => ([], inl e, w)
  | StartClock t k => emit (EvStartClock t) (run sim k (sim_start_clock sim t w))
  | SetValue p v k => emit (EvSet p v) (run sim k (sim_set sim p v w))
  | AwaitTimer t k => emit (EvTimer t) (run sim k (sim_timer sim t w))
  | AwaitRisingEdge k => emit EvRisingEdge (run sim k (sim_rising_edge sim w))
  | GetValue p k =>
      let v := sim_get sim p w in emit (EvGet p v) (run sim (k v) w)
  | GetSignedInteger p k =>
      let v := sim_get_signed sim p w in emit (EvGetSigned p v) (run sim (k v) w)
  | RandInt lo hi k =>
      let '(v, w') := sim_randint sim lo hi w in
      emit (EvRandInt lo hi v) (run sim (k v) w')
  | LogInfo msg k => emit (EvLog msg) (run sim k w)
  end.

Definition trace_of {W A : Type} (o : outcome W A) : list event := o.1.1.
Definition result_of {W A : Type} (o : outcome W A) : exn + A := o.1.2.
Definition world_of {W A : Type} (o : outcome W A) : W := o.2.

(** The test passed: it returned without an uncaught exception. *)
Definition passed {W A : Type} (o : outcome W A) : bool :=
  match result_of o with inr _ => true | inl _ => false end.

(** Running [m] and then [k] on its value: the traces are joined, and an
    exception of [m] ends the run. *)
Definition then_run {W A B : Type} (o : outcome W A)
    (k : A -> W -> outcome W B) : outcome W B :=
  let '(tr, r, w) := o in
  match r with
  | inl e => (tr, inl e, w)
  | inr a => let '(tr', r', w') := k a w in (tr ++ tr', r', w')
  end.

(** ** The shape of a run of the tests *)

(** The events of [reset_dut]. *)
Definition reset_events : list event :=
  [EvSet rst_ni 0; EvSet rs1_i 0; EvSet rs2_i 0; EvSet rd_i 0;
   EvSet opcode_i 0; EvSet hartid_i 0; EvSet id_i 0; EvSet rd_addr_i 0;
   EvTimer 20; EvSet rst_ni 1; EvRisingEdge].

(** The ports of section 6 of the specification.  The clock is an input of
    the device that the clock generator drives, not the test. *)
Inductive port_kind : Type := Input | ClockInput | Output.

Definition kind_of (p : port) : port_kind :=
  match p with
  | clk_i => ClockInput
  | result_o | valid_o => Output
  | _ => Input
  end.

(** One test vector of [test_simd_dot] with what the device answered. *)
Record vector : Type := {
  v_rs1 : list Z;
  v_rs2 : list Z;
  v_acc : Z;
  v_got : Z;
  v_valid : Z
}.

(** The draws from [random] that make the vector. *)
Definition draw_events (v : vector) : list event :=
  map (EvRandInt (-128) 127) (v_rs1 v)
  ++ map (EvRandInt (-128) 127) (v_rs2 v)
  ++ [EvRandInt (-2147483648) 2147483647 (v_acc v)].

(** What the device sees of the vector. *)
Definition transaction (v : vector) : list event :=
  [EvSet rs1_i (pack_word (v_rs1 v)); EvSet rs2_i (pack_word (v_rs2 v));
   EvSet rd_i (v_acc v); EvSet opcode_i OP_SIMD_DOT;
   EvRisingEdge; EvRisingEdge;
   EvGetSigned result_o (v_got v); EvGet valid_o (v_valid v)].

Definition vector_events (v : vector) : list event :=
  draw_events v ++ transaction v.

(** What the device sees of the vector of [test_mac8_legacy]. *)
Definition mac8_transaction (got : Z) : list event :=
  [EvSet rs1_i 10; EvSet rs2_i 251; EvSet rd_i 20; EvSet opcode_i OP_MAC8;
   EvRisingEdge; EvRisingEdge; EvGetSigned result_o got].


(** The events that reach the device, as opposed to [random] and the log. *)
Definition is_dut_event (e : event) : bool :=
  match e with
  | EvRandInt _ _ _ | EvLog _ => false
  | _ => true
  end.

(** The two assertions of lines 99-102 on iteration [i]. *)
Definition verdict (i : Z) (v : vector) : exn + unit :=
  match simd_dot_expected (v_rs1 v) (v_rs2 v) (v_acc v) with
  | None => inl IndexError
  | Some expected =>
      if v_valid v =? 1 then
        if v_got v =? expected then inr tt
        else inl (AssertionError
                    (mismatch_message i (v_rs1 v) (v_rs2 v) (v_acc v)
                       expected (v_got v)))
      else inl (AssertionError invalid_message)
  end.

(** The vectors that a loop over the indices [idx] runs, and how it ends:
    every vector but the last passes its assertions, and the loop stops
    either at the end of [idx] or at the first vector that fails. *)
Inductive iterations : list Z -> list vector -> exn + unit -> Prop :=
  | iterations_done : iterations [] [] (inr tt)
  | iterations_pass i idx v vs r :
      verdict i v = inr tt -> iterations idx vs r ->
      iterations (i :: idx) (v :: vs) r
  | iterations_fail i idx v e :
      verdict i v = inl e -> iterations (i :: idx) [v] (inl e).

(** The vector passes both assertions. *)
Definition vector_passes (v : vector) : Prop :=
  v_valid v = 1 /\
  simd_dot_expected (v_rs1 v) (v_rs2 v) (v_acc v) = Some (v_got v).


(** The line logged at the end of [test_simd_dot]. *)
Definition passed_log : list event :=
  [EvLog "SIMD_DOT verification passed (1000 vectors)"].

(** The ports that [reset_dut] drives to zero, in order. *)
Definition reset_ports : list port :=
  [rst_ni; rs1_i; rs2_i; rd_i; opcode_i; hartid_i; id_i; rd_addr_i].

(** A vector whose draws are in the ranges asked for. *)
Definition vector_in_range (v : vector) : Prop :=
  Forall int8 (v_rs1 v) /\ Forall int8 (v_rs2 v) /\ int32 (v_acc v).

(** ** The sequencing discipline, as the specification words it

    "Idle -> Driven -> AwaitingLatency -> Captured": a vector is written to
    the input ports, one rising edge is awaited, then a second one, and then
    the outputs are sampled.  A write while a vector is in flight, a sample
    before the second edge and a third edge before the next vector are all
    rejected. *)
Inductive seq_state : Type := Idle | Driven | AwaitingLatency | Captured.

Definition seq_step (s : seq_state) (e : event) : option seq_state :=
  match e, s with
  | EvSet _ _, (Idle | Driven | Captured) => Some Driven
  | EvRisingEdge, Driven => Some AwaitingLatency
  | EvRisingEdge, AwaitingLatency => Some Captured
  | (EvGet _ _ | EvGetSigned _ _), Captured => Some Captured
  | (EvRandInt _ _ _ | EvLog _), _ => Some s
  | _, _ => None
  end.

Fixpoint seq_run (s : seq_state) (tr : list event) : option seq_state :=
  match tr with
  | [] => Some s
  | e :: tr' => s' ← seq_step s e; seq_run s' tr'
  end.

(** ** Devices to run the tests on

    Modelled from the spec: the RTL of the MAC unit is not part of the
    sources.  [ref_compute] follows section 4.2 for the two opcodes the
    harness drives: SIMD_DOT is the lane-wise dot product plus the signed
    accumulator, kept to 32 bits; MAC8 is the low 8 bits of
    rs1*rs2+acc, sign-extended.  The output is registered: it is captured at
    a rising edge.  A [fault] makes the device misbehave on purpose. *)

Definition to_signed (width u : Z) : Z :=
  let m := u mod 2 ^ width in
  if m <? 2 ^ (width - 1) then m else m - 2 ^ width.

Definition ref_compute (opcode rs1 rs2 rd : Z) : Z :=
  if opcode =? OP_SIMD_DOT then
    match dot_product (get_signed_bytes rs1) (get_signed_bytes rs2) with
    | Some dot => (dot + to_signed 32 rd) mod 2 ^ 32
    | None => 0
    end
  else if opcode =? OP_MAC8 then
    to_signed 8 (to_signed 8 rs1 * to_signed 8 rs2 + to_signed 8 rd) mod 2 ^ 32
  else 0.

Record fault : Type := {
  stuck_valid : option Z;     (* valid_o tied to this value *)
  result_error : Z            (* added to every result *)
}.

Record dut_state : Type := {
  inputs : port -> Z;
  result_q : Z;
  valid_q : Z;
  seed : Z
}.

Definition dut_init (seed0 : Z) : dut_state :=
  {| inputs := fun _ => 0; result_q := 0; valid_q := 0; seed := seed0 |}.

Definition dut_set (p : port) (v : Z) (w : dut_state) : dut_state :=
  {| inputs := fun q => if decide (q = p) then v mod 2 ^ 32 else inputs w q;
     result_q := result_q w; valid_q := valid_q w; seed := seed w |}.

Definition dut_rising_edge (f : fault) (w : dut_state) : dut_state :=
  if inputs w rst_ni =? 0 then
    {| inputs := inputs w; result_q := 0; valid_q := 0; seed := seed w |}
  else
    let op := inputs w opcode_i in
    {| inputs := inputs w;
       result_q :=
         (ref_compute op (inputs w rs1_i) (inputs w rs2_i) (inputs w rd_i)
          + result_error f) mod 2 ^ 32;
       valid_q :=
         match stuck_valid f with
         | Some v => v
         | None => if (1 <=? op) && (op <=? 5) then 1 else 0
         end;
       seed := seed w |}.

Definition dut_get (p : port) (w : dut_state) : Z :=
  match p with
  | result_o => result_q w
  | valid_o => valid_q w
  | _ => inputs w p
  end.

(** A linear congruential generator standing for the [random] module. *)
Definition dut_randint (lo hi : Z) (w : dut_state) : Z * dut_state :=
  let s := (seed w * 1103515245 + 12345) mod 2147483648 in
  (lo + s mod (hi - lo + 1),
   {| inputs := inputs w; result_q := result_q w; valid_q := valid_q w;
      seed := s |}).

Definition dut_sim (f : fault) : simulator dut_state := {|
  sim_start_clock := fun _ w => w;
  sim_set := dut_set;
  sim_timer := fun _ w => w;
  sim_rising_edge := dut_rising_edge f;
  sim_get := dut_get;
  sim_get_signed := fun p w => to_signed 32 (dut_get p w);
  sim_randint := dut_randint
|}.

Definition no_fault : fault := {| stuck_valid := None; result_error := 0 |}.
Definition valid_stuck_low : fault := {| stuck_valid := Some 0; result_error := 0 |}.
Definition result_off_by_one : fault := {| stuck_valid := None; result_error := 1 |}.

(** ** More about the tests *)

(** The signed byte that [get_signed_bytes] makes of lane [i]. *)
Definition signed_lane (val i : Z) : Z :=
  let byte := Z.land (Z.shiftr val (i * 8)) 255 in
  if byte >=? 128 then byte - 256 else byte.

(** Rising edges and draws from [random], to count them. *)
Definition is_edge (e : event) : bool :=
  match e with EvRisingEdge => true | _ => false end.
Definition is_draw (e : event) : bool :=
  match e with EvRandInt _ _ _ => true | _ => false end.

(** What the 32-bit operand ports, the signed accumulator port and the
    control ports are written with. *)
Definition fits_port (p : port) (v : Z) : Prop :=
  match p with
  | rs1_i | rs2_i => 0 <= v < 4294967296
  | rd_i => int32 v
  | opcode_i => v = OP_ILLEGAL \/ v = OP_SIMD_DOT
  | rst_ni => v = 0 \/ v = 1
  | _ => v = 0
  end.

(** Every write of the event fits its port. *)
Definition write_fits (e : event) : Prop :=
  match e with
  | EvSet p v => fits_port p v
  | _ => True
  end.

(** The state of the simulator when [test_simd_dot] samples the outputs of
    a vector driven from state [w]. *)
Definition after_vector {W : Type} (sim : simulator W)
    (rs1_bytes rs2_bytes : list Z) (acc_val : Z) (w : W) : W :=
  sim_rising_edge sim (sim_rising_edge sim
    (sim_set sim opcode_i OP_SIMD_DOT
      (sim_set sim rd_i acc_val
        (sim_set sim rs2_i (pack_word rs2_bytes)
          (sim_set sim rs1_i (pack_word rs1_bytes) w))))).

(** The state in which [test_simd_dot] enters its loop. *)
Definition after_reset {W : Type} (sim : simulator W) (w : W) : W :=
  world_of (run sim reset_dut (sim_start_clock sim 10 w)).

(** A device that computes SIMD_DOT as the golden model does, in every
    state [ready] that the loop can be in. *)
Record simd_dot_device {W : Type} (sim : simulator W) (ready : W -> Prop)
    : Prop := {
  ready_randint : forall lo hi w, ready w -> ready (sim_randint sim lo hi w).2;
  ready_vector : forall rs1_bytes rs2_bytes acc_val w,
    ready w ->
    length rs1_bytes = 4%nat -> length rs2_bytes = 4%nat ->
    Forall int8 rs1_bytes -> Forall int8 rs2_bytes -> int32 acc_val ->
    let w' := after_vector sim rs1_bytes rs2_bytes acc_val w in
    ready w' /\
    sim_get sim valid_o w' = 1 /\
    sim_get_signed sim result_o w'
      = wrap_signed32 (lane_dot rs1_bytes rs2_bytes + acc_val)
}.

(** The reference device is out of reset. *)
Definition dut_ready (w : dut_state) : Prop := inputs w rst_ni = 1.

End TestMac.

Module ExtractCva6Files.

(** ** Python string methods used by the extractor *)

(** [s.startswith(pre)]. *)
Definition startswith (pre s : string) : bool := String.prefix pre s.

(** [s.endswith(suf)]. *)
Definition endswith (suf s : string) : bool :=
  let n := String.length s in
  let k := String.length suf in
  (k <=? n)%nat && String.eqb (String.substring (n - k) k s) suf.

(** [s[n:]]. *)
Fixpoint drop_chars (n : nat) (s : string) : string :=
  match n, s with
  | O, _ => s
  | S _, EmptyString => EmptyString
  | S n', String _ s' => drop_chars n' s'
  end.

(** The ASCII characters [str.strip()] removes: tab, line feed, vertical
    tab, form feed, carriage return, the separators 28 to 31, and space. *)
Definition is_space (c : ascii) : bool :=
  let n := nat_of_ascii c in
  ((9 <=? n) && (n <=? 13) || (28 <=? n) && (n <=? 32))%nat.

Fixpoint lstrip (s : string) : string :=
  match s with
  | EmptyString => EmptyString
  | String c s' => if is_space c then lstrip s' else s
  end.

Fixpoint rstrip (s : string) : string :=
  match s with
  | EmptyString => EmptyString
  | String c s' =>
      match rstrip s' with
      | EmptyString => if is_space c then EmptyString else String c EmptyString
      | r => String c r
      end
  end.

(** [s.strip()]. *)
Definition strip (s : string) : string := rstrip (lstrip s).

(** [s.split(sep)] for a one-character separator. *)
Fixpoint split (sep : ascii) (s : string) : list string :=
  match s with
  | EmptyString => [EmptyString]
  | String c s' =>
      if Ascii.eqb c sep then EmptyString :: split sep s'
      else match split sep s' with
           | [] => [String c EmptyString]
           | w :: ws => String c w :: ws
           end
  end.

(** [s.replace(old, new)] for a non-empty [old]: occurrences are replaced
    from left to right and do not overlap.  [skip] counts the characters of
    an occurrence that are still to be passed over. *)
Fixpoint replace_from (old new : string) (skip : nat) (s : string) : string :=
  match s with
  | EmptyString => EmptyString
  | String c s' =>
      match skip with
      | S k => replace_from old new k s'
      | O =>
          if String.prefix old s
          then new +:+ replace_from old new (String.length old - 1) s'
          else String c (replace_from old new O s')
      end
  end.

Definition replace (old new s : string) : string := replace_from old new 0 s.

(** [re.match(r'.*\.(sv|svh|v)$', line)] on a line that holds no line feed
    (it comes out of [split] on line feeds): the line ends in one of the
    three suffixes. *)
Definition is_rtl_file (line : string) : bool :=
  endswith ".sv" line || endswith ".svh" line || endswith ".v" line.

Definition backslash : string := String (ascii_of_nat 92) EmptyString.
Definition line_feed : ascii := ascii_of_nat 10.

(** ** [process_flist_file] *)

(** What the walk shares between its calls: the set [processed_flists],
    which every call receives and mutates in place, and two traces kept for
    the proofs, the paths handed to [open] and the lines sent to stderr. *)
Record walk : Type := {
  processed_flists : gset string;
  opened : list string;
  stderr : list string
}.

Definition walk_start (processed : gset string) : walk :=
  {| processed_flists := processed; opened := []; stderr := [] |}.

(** [processed_flists.add(path)]. *)
Definition mark (path : string) (st : walk) : walk :=
  {| processed_flists := {[path]} ∪ processed_flists st;
     opened := opened st; stderr := stderr st |}.

Definition log_open (path : string) (st : walk) : walk :=
  {| processed_flists := processed_flists st;
     opened := opened st ++ [path]; stderr := stderr st |}.

Definition warn (msg : string) (st : walk) : walk :=
  {| processed_flists := processed_flists st;
     opened := opened st; stderr := stderr st ++ [msg] |}.

(** files, include directories, and the shared state after the call. *)
Definition result : Type := (list string * list string * walk)%type.

Section Walk.

(** [os.path]: its functions depend on the platform and are taken as
    given. *)
Variables (abspath normpath : string -> string).
Variable isabs : string -> bool.
Variable path_join : string -> string -> string.

(** The file system: the text of every file that exists.  Directories
    and unreadable files, on which [open] raises, are left out. *)
Variable fs : gmap string string.

(** The loop [for line in content.split('\n')], with [recur] the recursive
    call of [process_flist_file]. *)
Fixpoint process_lines (recur : string -> walk -> option result)
    (cva6_repo_dir : string) (lines : list string)
    (files include_dirs : list string) (st : walk) : option result :=
  match lines with
  | [] => Some (files, include_dirs, st)
  | line :: rest =>
      let line := strip line in
      (* Skip comments and empty lines *)
      if String.eqb line "" || startswith "//" line then
        process_lines recur cva6_repo_dir rest files include_dirs st
      (* Extract include directories *)
      else if startswith "+incdir" line then
        let incdir := strip (replace "+incdir+" "" line) in
        let include_dirs :=
          if String.eqb incdir "" then include_dirs
          else include_dirs ++ [incdir] in
        process_lines recur cva6_repo_dir rest files include_dirs st
      (* Handle -F references (file lists) - recursively process them *)
      else if startswith "-F" line then
        let flist_ref := strip (drop_chars 2 line) in
        let flist_ref :=
          if isabs flist_ref then flist_ref
          else path_join cva6_repo_dir flist_ref in
        let flist_ref := normpath flist_ref in
        '(sub_files, sub_incdirs, st') ← recur flist_ref st;
        process_lines recur cva6_repo_dir rest
          (files ++ sub_files) (include_dirs ++ sub_incdirs) st'
      (* Extract file paths (.sv, .svh, .v) *)
      else if is_rtl_file line then
        let file_path := replace backslash "/" line in
        let file_path :=
          if startswith "../" file_path then file_path
          else "../" +:+ file_path in
        process_lines recur cva6_repo_dir rest
          (files ++ [file_path]) include_dirs st
      else
        process_lines recur cva6_repo_dir rest files include_dirs st
  end.

(** Process a Flist file and return files and include directories.  The
    recursion of the source is not structural: [fuel] bounds its depth,
    and [None] means that the bound was reached. *)
Fixpoint process_flist_file (fuel : nat)
    (flist_path cva6_repo_dir target_cfg : string) (st : walk)
    : option result :=
  match fuel with
  | O => None
  | S fuel' =>
      (* Normalize path to avoid processing same file twice *)
      let flist_path := normpath (abspath flist_path) in
      if decide (flist_path ∈ processed_flists st) then Some ([], [], st)
      else
        let st := mark flist_path st in
        match fs !! flist_path with
        | None =>
            Some ([], [],
                  warn ("Warning: Flist not found at " +:+ flist_path) st)
        | Some content =>
            let st := log_open flist_path st in
            let hpdcache_dir :=
              path_join
                (path_join (path_join cva6_repo_dir "core") "cache_subsystem")
                "hpdcache" in
            let content :=
              replace "${HPDCACHE_DIR}" (replace backslash "/" hpdcache_dir)
                content in
            let content :=
              replace "${CVA6_REPO_DIR}" (replace backslash "/" cva6_repo_dir)
                content in
            let content := replace "${TARGET_CFG}" target_cfg content in
            process_lines
              (fun ref st' =>
                 process_flist_file fuel' ref cva6_repo_dir target_cfg st')
              cva6_repo_dir (split line_feed content) [] [] st
        end
  end.

(** Enough fuel for any walk over [fs] that starts from [st]: one call for
    each file not yet processed, and one more for the call that finds
    nothing left to do. *)
Definition enough_fuel (st : walk) : nat :=
  S (size (dom fs ∖ processed_flists st)).

(** The files of [fs] that the walk has not yet come to. *)
Definition remaining (st : walk) : nat :=
  size (dom fs ∖ processed_flists st).

(** What a call may do to the shared state: [processed_flists] only
    grows, and the paths it opens are new, distinct, existing, and
    recorded in [processed_flists]. *)
Definition extends (st st' : walk) : Prop :=
  processed_flists st ⊆ processed_flists st' /\
  exists new,
    opened st' = opened st ++ new /\ NoDup new /\
    forall p, p ∈ new ->
      (p ∉ processed_flists st) /\ (p ∈ processed_flists st') /\ (p ∈ dom fs).

End Walk.

(** ** What the walk returns and reports *)

(** [c in s] for a character. *)
Fixpoint has_char (c : ascii) (s : string) : bool :=
  match s with
  | EmptyString => false
  | String c' s' => Ascii.eqb c' c || has_char c s'
  end.

(** A path as the walk returns it: relative to the integration
    directory, with forward slashes only, on one line, and with one of
    the three suffixes of an RTL file. *)
Definition rtl_path (f : string) : Prop :=
  startswith "../" f = true /\ is_rtl_file f = true /\
  has_char (ascii_of_nat 92) f = false /\ has_char line_feed f = false.

(** An include directory as the walk returns it: not empty, and without
    white space around it. *)
Definition include_dir (d : string) : Prop := d <> "" /\ strip d = d.

(** The line of line 23. *)
Definition not_found_warning (flist_path : string) : string :=
  "Warning: Flist not found at " +:+ flist_path.

Section Extract.

Variables (abspath normpath : string -> string).
Variable isabs : string -> bool.
Variable path_join : string -> string -> string.
Variable fs : gmap string string.

(** The books of a call: the paths it opened and the paths it found
    missing are all new, each is there once, every missing path has its
    one warning, and [processed_flists] grows by exactly these paths. *)
Definition accounts (st st' : walk) : Prop :=
  exists new missing,
    opened st' = opened st ++ new /\
    stderr st' = stderr st ++ map not_found_warning missing /\
    NoDup new /\ NoDup missing /\
    (forall p, p ∈ new -> is_Some (fs !! p) /\ (p ∉ processed_flists st)) /\
    (forall p, p ∈ missing -> fs !! p = None /\ (p ∉ processed_flists st)) /\
    processed_flists st'
      = processed_flists st ∪ list_to_set new ∪ list_to_set missing.

(** ** [extract_cva6_files] *)

(** What a call returns and leaves behind: the two lists, the file system
    after the write of [output_file], and the lines sent to stderr. *)
Record extraction : Type := {
  ex_files : list string;
  ex_include_dirs : list string;
  ex_fs : gmap string string;
  ex_stderr : list string
}.

(** Extract all CVA6 RTL files from Flist.cva6.  A file is found under its
    normalized absolute path, as in [process_flist_file]; [output_file] is
    [None] for Python's None, and the empty string counts as no file. *)
Definition extract_cva6_files (fuel : nat)
    (cva6_repo_dir target_cfg : string) (output_file : option string)
    : option extraction :=
  let flist_path := path_join (path_join cva6_repo_dir "core") "Flist.cva6" in
  match fs !! normpath (abspath flist_path) with
  | None =>
      Some {| ex_files := []; ex_include_dirs := []; ex_fs := fs;
              ex_stderr := ["Error: Flist.cva6 not found at " +:+ flist_path] |}
  | Some _ =>
      '(files, include_dirs, st) ←
        process_flist_file abspath normpath isabs path_join fs fuel
          flist_path cva6_repo_dir target_cfg (walk_start ∅);
      match output_file with
      | Some out =>
          if String.eqb out "" then
            Some {| ex_files := files; ex_include_dirs := include_dirs;
                    ex_fs := fs; ex_stderr := stderr st |}
          else
            Some {| ex_files := files; ex_include_dirs := include_dirs;
                    ex_fs :=
                      <[normpath (abspath out) :=
                          TestMac.join (String line_feed "") files]> fs;
                    ex_stderr :=
                      stderr st ++
                      ["Extracted "
                       +:+ TestMac.repr_int (Z.of_nat (length files))
                       +:+ " CVA6 files to " +:+ out] |}
      | None =>
          Some {| ex_files := files; ex_include_dirs := include_dirs;
                  ex_fs := fs; ex_stderr := stderr st |}
      end
  end.

(** The path of the top file list, line 91. *)
Definition top_flist (cva6_repo_dir : string) : string :=
  path_join (path_join cva6_repo_dir "core") "Flist.cva6".

End Extract.

(** Two file systems that hold the same thing, or both nothing, under
    every path that a call added to [processed_flists]. *)
Definition agree (fs fs2 : gmap string string) (st st' : walk) : Prop :=
  forall p, p ∈ processed_flists st' -> (p ∉ processed_flists st) ->
            fs2 !! p = fs !! p.

(** ** A small POSIX file system to run the walk on *)

Definition posix_isabs (p : string) : bool := startswith "/" p.

Definition posix_join (a b : string) : string :=
  if posix_isabs b then b
  else if endswith "/" a || String.eqb a "" then a +:+ b
  else a +:+ "/" +:+ b.

(** The working directory is [/work]. *)
Definition posix_abspath (p : string) : string :=
  if posix_isabs p then p else posix_join "/work" p.

(** The paths of the examples are already normal. *)
Definition posix_normpath (p : string) : string := p.

(** Two file lists that reference each other, and the first one itself. *)
Definition cyclic_fs : gmap string string :=
  {[ "/cva6/core/Flist.cva6" :=
       "// top" +:+ String line_feed
         ("+incdir+${CVA6_REPO_DIR}/core/include/" +:+ String line_feed
         ("${CVA6_REPO_DIR}/core/alu.sv" +:+ String line_feed
         ("-F core/Flist.cva6" +:+ String line_feed
         ("-F ${CVA6_REPO_DIR}/core/sub.f" +:+ String line_feed
         ("-F missing.f" +:+ String line_feed
          "${HPDCACHE_DIR}/rtl/src/hpdcache.sv")))));
     "/cva6/core/sub.f" :=
       "-F /cva6/core/Flist.cva6" +:+ String line_feed
         ("  ${CVA6_REPO_DIR}/core/${TARGET_CFG}_pkg.sv  " +:+ String line_feed
          "readme.txt") ]}.

(** A file list that names the list file [/work/out.list] as a file list
    of its own. *)
Definition feedback_fs : gmap string string :=
  {[ "/cva6/core/Flist.cva6" :=
       "core/alu.sv" +:+ String line_feed "-F /work/out.list" ]}.

Definition posix_walk (fs : gmap string string) (fuel : nat)
    (path : string) (st : walk) : option result :=
  process_flist_file posix_abspath posix_normpath posix_isabs posix_join fs
    fuel path "/cva6" "cv32a60x" st.

Definition posix_extract (fs : gmap string string) (fuel : nat)
    (output_file : option string) : option extraction :=
  extract_cva6_files posix_abspath posix_normpath posix_isabs posix_join fs
    fuel "/cva6" "cv32a60x" output_file.

End ExtractCva6Files.

(* ===================================================================== *)
(** * Part II: properties                                                 *)
(* ===================================================================== *)

Import TestMac.

Section GoldenModel.

Local Open Scope Z_scope.

(** ** Bits of a packed word *)

Lemma testbit_255 (n : Z) : 0 <= n -> Z.testbit 255 n = (n <? 8).
Proof.
  intros Hn. change 255 with (Z.ones 8).
  apply Z.testbit_ones_nonneg; lia.
Qed.

Lemma testbit_lane (x k n : Z) :
  0 <= k -> 0 <= n ->
  Z.testbit (Z.shiftl (Z.land x 255) k) n
  = (k <=? n) && (n - k <? 8) && Z.testbit x (n - k).
Proof.
  intros Hk Hn. rewrite Z.shiftl_spec by lia.
  destruct (Z.leb_spec k n) as [Hle|Hlt].
  - rewrite Z.land_spec, testbit_255 by lia.
    destruct (n - k <? 8), (Z.testbit x (n - k)); reflexivity.
  - rewrite Z.testbit_neg_r by lia. reflexivity.
Qed.

Lemma land_255_mod (x : Z) : Z.land x 255 = x mod 256.
Proof. change 255 with (Z.ones 8). rewrite Z.land_ones by lia. reflexivity. Qed.

Lemma testbit_word4 (a b c d n : Z) :
  0 <= n ->
  Z.testbit (word4 a b c d) n =
    if n <? 8 then Z.testbit a n
    else if n <? 16 then Z.testbit b (n - 8)
    else if n <? 24 then Z.testbit c (n - 16)
    else if n <? 32 then Z.testbit d (n - 24)
    else false.
Proof.
  intros Hn. unfold word4.
  rewrite !Z.lor_spec, !testbit_lane, Z.bits_0 by lia.
  change (0 * 8) with 0; change (1 * 8) with 8;
    change (2 * 8) with 16; change (3 * 8) with 24.
  rewrite Z.sub_0_r.
  destruct (Z.ltb_spec n 8), (Z.ltb_spec n 16), (Z.ltb_spec n 24),
    (Z.ltb_spec n 32); try lia;
  repeat match goal with
  | |- context [?x <=? ?y] => destruct (Z.leb_spec x y); try lia
  | |- context [?x <? ?y] => destruct (Z.ltb_spec x y); try lia
  end; cbn [andb orb]; rewrite ?orb_false_r; reflexivity.
Qed.

Lemma lane_of_word4 (a b c d i : Z) :
  0 <= i < 4 ->
  Z.land (Z.shiftr (word4 a b c d) (i * 8)) 255
  = (if i =? 0 then a else if i =? 1 then b else if i =? 2 then c else d)
      mod 256.
Proof.
  intros Hi. rewrite <- land_255_mod.
  apply Z.bits_inj'. intros n Hn.
  rewrite !Z.land_spec, Z.shiftr_spec, testbit_word4, testbit_255 by lia.
  destruct (Z.ltb_spec n 8); [| rewrite !andb_false_r; reflexivity].
  rewrite !andb_true_r.
  assert (i = 0 \/ i = 1 \/ i = 2 \/ i = 3) as [-> | [-> | [-> | ->]]] by lia;
    cbn [Z.eqb Z.mul Pos.mul Pos.eqb];
    repeat match goal with
    | |- context [?x <? ?y] => destruct (Z.ltb_spec x y); try lia
    end; f_equal; lia.
Qed.

Lemma word4_range (a b c d : Z) : 0 <= word4 a b c d < 4294967296.
Proof.
  assert (Hbits : forall n, 32 <= n -> Z.testbit (word4 a b c d) n = false).
  { intros n Hn. rewrite testbit_word4 by lia.
    repeat match goal with
    | |- context [?x <? ?y] => destruct (Z.ltb_spec x y); try lia
    end; reflexivity. }
  assert (Hnn : 0 <= word4 a b c d).
  { apply Z.bits_iff_nonneg_ex. exists 32. intros m Hm. apply Hbits. lia. }
  split; [exact Hnn|].
  destruct (Z.eq_dec (word4 a b c d) 0) as [->|Hz]; [lia|].
  assert (Hpos : 0 < word4 a b c d) by lia.
  change 4294967296 with (2 ^ 32).
  apply Z.log2_lt_pow2; [exact Hpos|].
  destruct (Z.lt_ge_cases (Z.log2 (word4 a b c d)) 32) as [|Hge]; [assumption|].
  pose proof (Z.bit_log2 _ Hpos) as Hb.
  rewrite Hbits in Hb by lia. discriminate.
Qed.

Lemma signed_byte_back (x : Z) :
  int8 x ->
  (if x mod 256 >=? 128 then x mod 256 - 256 else x mod 256) = x.
Proof.
  unfold int8. intros Hx.
  destruct (Z.geb_spec (x mod 256) 128);
    pose proof (Z.mod_pos_bound x 256 ltac:(lia));
    pose proof (Z.div_mod x 256 ltac:(lia)); lia.
Qed.

Lemma get_signed_bytes_unfold (val : Z) :
  get_signed_bytes val =
    map (fun i =>
           let byte := Z.land (Z.shiftr val (i * 8)) 255 in
           if byte >=? 128 then byte - 256 else byte) [0; 1; 2; 3].
Proof. reflexivity. Qed.

Lemma get_signed_bytes_word4 (a b c d : Z) :
  int8 a -> int8 b -> int8 c -> int8 d ->
  get_signed_bytes (word4 a b c d) = [a; b; c; d].
Proof.
  intros Ha Hb Hc Hd. rewrite get_signed_bytes_unfold.
  cbn [map]. cbv zeta.
  rewrite !lane_of_word4 by lia. cbn [Z.eqb Pos.eqb].
  rewrite !signed_byte_back by assumption. reflexivity.
Qed.

Lemma pack_operands_4 (a b c d e f g h : Z) :
  pack_operands [a; b; c; d] [e; f; g; h]
  = Some (word4 a b c d, word4 e f g h).
Proof. reflexivity. Qed.

Lemma pack_word_4 (a b c d : Z) : pack_word [a; b; c; d] = word4 a b c d.
Proof. reflexivity. Qed.

Lemma length_4_inv {A : Type} (l : list A) :
  length l = 4%nat -> exists a b c d, l = [a; b; c; d].
Proof.
  destruct l as [|a [|b [|c [|d [|? ?]]]]]; try discriminate.
  intros _. eauto.
Qed.

Lemma get_signed_bytes_int8 (val : Z) : Forall int8 (get_signed_bytes val).
Proof.
  rewrite get_signed_bytes_unfold. cbn [map]. cbv zeta.
  repeat constructor; unfold int8; rewrite land_255_mod;
    match goal with
    | |- context [?x mod 256] =>
        pose proof (Z.mod_pos_bound x 256 ltac:(lia));
        destruct (Z.geb_spec (x mod 256) 128); lia
    end.
Qed.

(** ** The wraparound law of SIMD_DOT *)

Lemma simd_dot_expected_4 (a b c d e f g h acc_val : Z) :
  simd_dot_expected [a; b; c; d] [e; f; g; h] acc_val
  = Some (handle_overflow (0 + a * e + b * f + c * g + d * h + acc_val)).
Proof. reflexivity. Qed.

Lemma lane_dot_4 (a b c d e f g h : Z) :
  lane_dot [a; b; c; d] [e; f; g; h] = a * e + b * f + c * g + d * h.
Proof. unfold lane_dot. cbn [zip_with foldr]. lia. Qed.

Lemma int8_product (x y : Z) : int8 x -> int8 y -> -16256 <= x * y <= 16384.
Proof. unfold int8. intros Hx Hy. nia. Qed.

Lemma lane_dot_bounds (rs1_bytes rs2_bytes : list Z) :
  length rs1_bytes = 4%nat -> length rs2_bytes = 4%nat ->
  Forall int8 rs1_bytes -> Forall int8 rs2_bytes ->
  -65024 <= lane_dot rs1_bytes rs2_bytes <= 65536.
Proof.
  intros (a & b & c & d & ->)%length_4_inv (e & f & g & h & ->)%length_4_inv H1 H2.
  rewrite lane_dot_4.
  repeat match goal with
  | H : Forall _ (_ :: _) |- _ => apply Forall_cons in H; destruct H
  end.
  pose proof (int8_product a e ltac:(assumption) ltac:(assumption)).
  pose proof (int8_product b f ltac:(assumption) ltac:(assumption)).
  pose proof (int8_product c g ltac:(assumption) ltac:(assumption)).
  pose proof (int8_product d h ltac:(assumption) ltac:(assumption)).
  lia.
Qed.

(** One conditional correction is a full reduction as long as the sum is
    less than 2^32 away from the signed range. *)
Lemma handle_overflow_wraps (x : Z) :
  -6442450944 <= x <= 6442450943 ->
  handle_overflow x = wrap_signed32 x.
Proof.
  intros Hx. unfold handle_overflow, wrap_signed32. cbv zeta.
  pose proof (Z.mod_pos_bound x 4294967296 ltac:(lia)).
  pose proof (Z.div_mod x 4294967296 ltac:(lia)).
  destruct (Z.gtb_spec x 2147483647), (Z.ltb_spec x (-2147483648)),
    (Z.ltb_spec (x mod 4294967296) 2147483648); lia.
Qed.

Lemma wrap_signed32_range (x : Z) : int32 (wrap_signed32 x).
Proof.
  unfold wrap_signed32, int32. cbv zeta.
  pose proof (Z.mod_pos_bound x 4294967296 ltac:(lia)).
  destruct (Z.ltb_spec (x mod 4294967296) 2147483648); lia.
Qed.

Lemma wrap_signed32_congruent (x : Z) :
  (wrap_signed32 x - x) mod 4294967296 = 0.
Proof.
  unfold wrap_signed32. cbv zeta.
  pose proof (Z.div_mod x 4294967296 ltac:(lia)).
  destruct (Z.ltb_spec (x mod 4294967296) 2147483648).
  - replace (x mod 4294967296 - x) with ((- (x / 4294967296)) * 4294967296) by lia.
    apply Z.mod_mul. lia.
  - replace (x mod 4294967296 - 4294967296 - x)
      with ((- (x / 4294967296) - 1) * 4294967296) by lia.
    apply Z.mod_mul. lia.
Qed.

(** C1. For four-lane operands with every lane byte in [-128,127] and an
    accumulator in the signed 32-bit range, the expected value that
    [test_simd_dot] computes is the full-precision lane-wise dot product plus
    the accumulator, reduced modulo 2^32 into [-2^31, 2^31-1]: the single
    conditional addition or subtraction of 2^32 is a full reduction. *)
Theorem simd_dot_expected_is_wrapped_sum
    (rs1_bytes rs2_bytes : list Z) (acc_val : Z) :
  length rs1_bytes = 4%nat -> length rs2_bytes = 4%nat ->
  Forall int8 rs1_bytes -> Forall int8 rs2_bytes -> int32 acc_val ->
  exists expected,
    simd_dot_expected rs1_bytes rs2_bytes acc_val = Some expected /\
    expected = wrap_signed32 (lane_dot rs1_bytes rs2_bytes + acc_val) /\
    int32 expected /\
    (expected - (lane_dot rs1_bytes rs2_bytes + acc_val)) mod 4294967296 = 0.
Proof.
  intros L1 L2 H1 H2 Hacc.
  pose proof (lane_dot_bounds _ _ L1 L2 H1 H2) as Hdot.
  destruct (length_4_inv _ L1) as (a & b & c & d & ->).
  destruct (length_4_inv _ L2) as (e & f & g & h & ->).
  rewrite simd_dot_expected_4. rewrite lane_dot_4 in *.
  replace (0 + a * e + b * f + c * g + d * h + acc_val)
    with (a * e + b * f + c * g + d * h + acc_val) by lia.
  eexists. split; [reflexivity|].
  unfold int32 in Hacc.
  rewrite handle_overflow_wraps by lia.
  split; [reflexivity|].
  split; [apply wrap_signed32_range | apply wrap_signed32_congruent].
Qed.

(** Scenario B of the specification: four lanes of 127 against four lanes of
    127 with the largest accumulator wrap to a negative value. *)
Lemma simd_dot_expected_is_wrapped_sum_witness :
  exists expected,
    simd_dot_expected [127; 127; 127; 127] [127; 127; 127; 127] 2147483647
      = Some expected /\
    expected = wrap_signed32
      (lane_dot [127; 127; 127; 127] [127; 127; 127; 127] + 2147483647) /\
    int32 expected /\
    (expected
     - (lane_dot [127; 127; 127; 127] [127; 127; 127; 127] + 2147483647))
      mod 4294967296 = 0.
Proof.
  apply (simd_dot_expected_is_wrapped_sum
           [127; 127; 127; 127] [127; 127; 127; 127] 2147483647);
    try reflexivity; unfold int32, int8; try lia;
    repeat constructor; lia.
Defined.

Example scenario_b :
  simd_dot_expected [127; 127; 127; 127] [127; 127; 127; 127] 2147483647
  = Some (-2147419133).
Proof. reflexivity. Qed.

(** ** The packing round trip *)

(** C9. Packing four bytes of [-128,127] into a word by
    [(byte & 0xFF) << (8*i)], as the loop of [test_simd_dot] does for both
    operands, and applying [get_signed_bytes] gives the bytes back; and
    every byte that [get_signed_bytes] returns for a non-negative 32-bit
    input lies in [-128,127]. *)
Theorem get_signed_bytes_pack_round_trip
    (rs1_bytes rs2_bytes : list Z) (val : Z) :
  length rs1_bytes = 4%nat -> length rs2_bytes = 4%nat ->
  Forall int8 rs1_bytes -> Forall int8 rs2_bytes ->
  0 <= val < 4294967296 ->
  (exists rs1_val rs2_val,
     pack_operands rs1_bytes rs2_bytes = Some (rs1_val, rs2_val) /\
     rs1_val = pack_word rs1_bytes /\ rs2_val = pack_word rs2_bytes /\
     0 <= rs1_val < 4294967296 /\ 0 <= rs2_val < 4294967296 /\
     get_signed_bytes rs1_val = rs1_bytes /\
     get_signed_bytes rs2_val = rs2_bytes) /\
  length (get_signed_bytes val) = 4%nat /\
  Forall int8 (get_signed_bytes val).
Proof.
  intros (a & b & c & d & ->)%length_4_inv (e & f & g & h & ->)%length_4_inv
    H1 H2 _.
  repeat match goal with
  | H : Forall _ (_ :: _) |- _ => apply Forall_cons in H; destruct H
  end.
  split; [| split; [reflexivity | apply get_signed_bytes_int8]].
  exists (word4 a b c d), (word4 e f g h).
  rewrite pack_operands_4, !pack_word_4.
  repeat split; try apply word4_range; apply get_signed_bytes_word4; assumption.
Qed.

Lemma get_signed_bytes_pack_round_trip_witness :
  (exists rs1_val rs2_val,
     pack_operands [-101; 56; 17; 118] [119; -28; 77; 2]
       = Some (rs1_val, rs2_val) /\
     rs1_val = pack_word [-101; 56; 17; 118] /\
     rs2_val = pack_word [119; -28; 77; 2] /\
     0 <= rs1_val < 4294967296 /\ 0 <= rs2_val < 4294967296 /\
     get_signed_bytes rs1_val = [-101; 56; 17; 118] /\
     get_signed_bytes rs2_val = [119; -28; 77; 2]) /\
  length (get_signed_bytes 3735928559) = 4%nat /\
  Forall int8 (get_signed_bytes 3735928559).
Proof.
  apply (get_signed_bytes_pack_round_trip
           [-101; 56; 17; 118] [119; -28; 77; 2] 3735928559);
    try reflexivity; try lia; repeat constructor; unfold int8; lia.
Defined.

Example get_signed_bytes_deadbeef :
  get_signed_bytes 3735928559 = [-17; -66; -83; -34].
Proof. reflexivity. Qed.

(** ** The golden model of MAC8 *)

Lemma sign_extend8_id (x : Z) : sign_extend8 x = x <-> int8 x.
Proof.
  unfold sign_extend8, int8. cbv zeta.
  pose proof (Z.mod_pos_bound x 256 ltac:(lia)).
  pose proof (Z.div_mod x 256 ltac:(lia)).
  destruct (Z.ltb_spec (x mod 256) 128); lia.
Qed.

(** The expression of line 126 is written in full precision: it is the
    sign-extension of the low byte of rs1*rs2+acc exactly when that sum
    fits in a signed byte. *)
Lemma mac8_expected_fits_byte (rs1_byte rs2_byte acc_byte : Z) :
  mac8_expected rs1_byte rs2_byte acc_byte
    = sign_extend8 (rs1_byte * rs2_byte + acc_byte)
  <-> int8 (rs1_byte * rs2_byte + acc_byte).
Proof.
  unfold mac8_expected. rewrite <- sign_extend8_id.
  split; intros H; symmetry; exact H.
Qed.

(** Where the sum leaves that range the two differ; [test_mac8_legacy]
    never evaluates the expression there. *)
Example mac8_expression_not_reduced :
  mac8_expected 127 127 0 = 16129 /\ sign_extend8 (127 * 127 + 0) = 1.
Proof. split; reflexivity. Qed.


End GoldenModel.

Section Harness.

Local Open Scope Z_scope.

Context {W : Type} (sim : simulator W).

(** ** Running a sequence *)

Lemma then_run_emit {A B : Type} (e : event) (o : outcome W A)
    (k : A -> W -> outcome W B) :
  then_run (emit e o) k = emit e (then_run o k).
Proof.
  destruct o as [[tr [x|a]] w]; cbn; [reflexivity|].
  destruct (k a w) as [[tr' r'] w']. reflexivity.
Qed.

Lemma run_bind {A B : Type} (m : prog A) (f : A -> prog B) (w : W) :
  run sim (bind m f) w = then_run (run sim m w) (fun a w' => run sim (f a) w').
Proof.
  revert w. induction m as [a|e|t k IH|p v k IH|t k IH|k IH|p k IH|p k IH|lo hi k IH|msg k IH]; intros w; cbn [bind run].
  - cbn. destruct (run sim (f a) w) as [[tr r] w']. reflexivity.
  - reflexivity.
  - rewrite IH, then_run_emit. reflexivity.
  - rewrite IH, then_run_emit. reflexivity.
  - rewrite IH, then_run_emit. reflexivity.
  - rewrite IH, then_run_emit. reflexivity.
  - cbv zeta. rewrite IH, then_run_emit. reflexivity.
  - cbv zeta. rewrite IH, then_run_emit. reflexivity.
  - destruct (sim_randint sim lo hi w) as [v w1]. rewrite IH, then_run_emit. reflexivity.
  - rewrite IH, then_run_emit. reflexivity.
Qed.

Lemma run_mbind {A B : Type} (m : prog A) (f : A -> prog B) (w : W) :
  run sim (m ≫= f) w = then_run (run sim m w) (fun a w' => run sim (f a) w').
Proof. apply run_bind. Qed.

Lemma run_randint_list (n : nat) (lo hi : Z) (w : W) :
  exists l w',
    run sim (randint_list n lo hi) w = (map (EvRandInt lo hi) l, inr l, w') /\
    length l = n /\
    (randint_in_range sim -> lo <= hi -> Forall (fun x => lo <= x <= hi) l).
Proof.
  revert w. induction n as [|n IH]; intros w.
  - exists [], w. repeat split; constructor.
  - cbn [randint_list]. rewrite run_mbind. cbn [randint run].
    pose proof (fun H : randint_in_range sim => H lo hi w) as Hr.
    destruct (sim_randint sim lo hi w) as [x w1] eqn:Ex.
    cbn [emit then_run]. rewrite run_mbind.
    destruct (IH w1) as (l & w2 & -> & Hlen & Hin).
    cbn. exists (x :: l), w2. repeat split.
    + rewrite app_nil_r. reflexivity.
    + cbn. lia.
    + intros Hsim Hle. constructor; [| auto].
      apply (Hr Hsim Hle).
Qed.

Lemma run_simd_dot_iteration (i : Z) (w : W) :
  exists v w',
    run sim (simd_dot_iteration i) w = (vector_events v, verdict i v, w') /\
    length (v_rs1 v) = 4%nat /\ length (v_rs2 v) = 4%nat /\
    (randint_in_range sim -> vector_in_range v).
Proof.
  unfold simd_dot_iteration.
  rewrite run_mbind.
  destruct (run_randint_list 4 (-128) 127 w) as (l1 & w1 & -> & L1 & R1).
  cbn [then_run]. rewrite run_mbind.
  destruct (run_randint_list 4 (-128) 127 w1) as (l2 & w2 & -> & L2 & R2).
  cbn [then_run]. rewrite run_mbind. cbn [randint run].
  pose proof (fun H : randint_in_range sim => H (-2147483648) 2147483647 w2) as Hr.
  destruct (sim_randint sim (-2147483648) 2147483647 w2) as [acc w3] eqn:Ex.
  cbn [emit then_run].
  destruct (length_4_inv _ L1) as (a & b & c & d & ->).
  destruct (length_4_inv _ L2) as (e & f & g & h & ->).
  set (wf := sim_rising_edge sim (sim_rising_edge sim
               (sim_set sim opcode_i OP_SIMD_DOT
                 (sim_set sim rd_i acc
                   (sim_set sim rs2_i (word4 e f g h)
                     (sim_set sim rs1_i (word4 a b c d) w3)))))).
  exists {| v_rs1 := [a; b; c; d]; v_rs2 := [e; f; g; h]; v_acc := acc;
            v_got := sim_get_signed sim result_o wf;
            v_valid := sim_get sim valid_o wf |}, wf.
  split; [| split; [reflexivity | split; [reflexivity |]]].
  - unfold verdict, vector_events, draw_events, transaction.
    cbn [v_rs1 v_rs2 v_acc v_got v_valid].
    rewrite !pack_word_4, simd_dot_expected_4, pack_operands_4.
    unfold mbind, prog_bind.
    cbn [lift_index bind run set_value await_rising_edge get_signed_integer
         get_value emit].
    fold wf.
    destruct (sim_get sim valid_o wf =? 1);
      [destruct (sim_get_signed sim result_o wf =? _) |];
      reflexivity.
  - intros Hsim. unfold vector_in_range. cbn [v_rs1 v_rs2 v_acc].
    split; [| split].
    + apply R1; [assumption | lia].
    + apply R2; [assumption | lia].
    + apply (Hr Hsim). lia.
Qed.


(** ** The loop of [test_simd_dot] *)

Lemma run_simd_dot_loop (idx : list Z) (w : W) :
  exists vs r w',
    run sim (for_each idx simd_dot_iteration) w
      = (concat (map vector_events vs), r, w') /\
    iterations idx vs r /\
    Forall (fun v => length (v_rs1 v) = 4%nat /\ length (v_rs2 v) = 4%nat) vs /\
    (randint_in_range sim -> Forall vector_in_range vs).
Proof.
  revert w. induction idx as [|i idx IH]; intros w.
  - exists [], (inr tt), w. repeat split; constructor.
  - cbn [for_each]. rewrite run_mbind.
    destruct (run_simd_dot_iteration i w) as (v & w1 & -> & L1 & L2 & Hv).
    cbn [then_run].
    destruct (verdict i v) as [e|[]] eqn:Hverdict.
    + exists [v], (inl e), w1. cbn [map concat]. rewrite app_nil_r.
      repeat split; auto using iterations_fail.
    + destruct (IH w1) as (vs & r & w2 & -> & Hit & Hshape & Hrange).
      exists (v :: vs), r, w2. cbn [map concat].
      repeat split; auto using iterations_pass.
Qed.

Lemma run_test_simd_dot (w : W) :
  exists vs r w',
    run sim test_simd_dot w
      = (EvStartClock 10 :: reset_events ++ concat (map vector_events vs)
           ++ (if r is inr _ then passed_log else []),
         r, w') /\
    iterations (range 1000) vs r /\
    Forall (fun v => length (v_rs1 v) = 4%nat /\ length (v_rs2 v) = 4%nat) vs /\
    (randint_in_range sim -> Forall vector_in_range vs).
Proof.
  unfold test_simd_dot, reset_dut, mbind, prog_bind.
  cbn [bind start_clock set_value await_timer await_rising_edge run emit].
  match goal with
  | |- context [run sim (bind (for_each _ _) ?k) ?w0] =>
      rewrite (run_bind (for_each _ _) k w0);
      destruct (run_simd_dot_loop (range 1000) w0)
        as (vs & r & w1 & -> & Hit & Hshape & Hrange)
  end.
  exists vs, r.
  destruct r as [e|[]]; cbn [then_run log_info run emit].
  - exists w1. rewrite app_nil_r. auto.
  - exists w1. auto.
Qed.

Lemma run_reset_dut (w : W) :
  run sim reset_dut w
  = (reset_events, inr tt,
     sim_rising_edge sim (sim_set sim rst_ni 1 (sim_timer sim 20
       (sim_set sim rd_addr_i 0 (sim_set sim id_i 0 (sim_set sim hartid_i 0
         (sim_set sim opcode_i 0 (sim_set sim rd_i 0 (sim_set sim rs2_i 0
           (sim_set sim rs1_i 0 (sim_set sim rst_ni 0 w))))))))))).
Proof. reflexivity. Qed.

Lemma run_test_mac8_legacy (w : W) :
  exists got w',
    got = sim_get_signed sim result_o w' /\
    run sim test_mac8_legacy w
      = (EvStartClock 10 :: reset_events ++ mac8_transaction got,
         if got =? -30 then inr tt
         else inl (AssertionError (mac8_message (-30) got)),
         w').
Proof.
  unfold test_mac8_legacy, reset_dut, mbind, prog_bind.
  cbn [bind start_clock set_value await_timer await_rising_edge
       get_signed_integer run emit].
  match goal with
  | |- context [sim_get_signed sim result_o ?w0] => exists (sim_get_signed sim result_o w0), w0
  end.
  split; [reflexivity|].
  change (mac8_expected 10 (-5) 20) with (-30).
  destruct (_ =? -30); reflexivity.
Qed.

(** ** What the assertions decide *)

Lemma verdict_cases (i : Z) (v : vector) :
  length (v_rs1 v) = 4%nat -> length (v_rs2 v) = 4%nat ->
  exists expected,
    simd_dot_expected (v_rs1 v) (v_rs2 v) (v_acc v) = Some expected /\
    ((v_valid v = 1 /\ v_got v = expected /\ verdict i v = inr tt) \/
     (v_valid v <> 1 /\ verdict i v = inl (AssertionError invalid_message)) \/
     (v_valid v = 1 /\ v_got v <> expected /\
      verdict i v = inl (AssertionError
        (mismatch_message i (v_rs1 v) (v_rs2 v) (v_acc v) expected (v_got v))))).
Proof.
  intros (a & b & c & d & E1)%length_4_inv (e & f & g & h & E2)%length_4_inv.
  unfold verdict. rewrite E1, E2, simd_dot_expected_4.
  eexists. split; [reflexivity|].
  destruct (Z.eqb_spec (v_valid v) 1) as [Hv|Hv]; [| auto].
  destruct (Z.eqb_spec (v_got v)
              (handle_overflow (0 + a * e + b * f + c * g + d * h + v_acc v)));
    auto.
Qed.

Lemma iterations_length (idx : list Z) (vs : list vector) (r : exn + unit) :
  iterations idx vs r -> (length vs <= length idx)%nat.
Proof. induction 1; cbn; lia. Qed.

Lemma iterations_nonempty (idx : list Z) (vs : list vector)
    (r : exn + unit) :
  iterations idx vs r -> idx <> [] -> vs <> [].
Proof. inversion 1; congruence. Qed.

Lemma iterations_passed (idx : list Z) (vs : list vector) (u : unit) :
  iterations idx vs (inr u) ->
  Forall2 (fun i v => verdict i v = inr tt) idx vs.
Proof.
  remember (inr u) as r eqn:Hr. induction 1; try discriminate.
  - constructor.
  - constructor; auto.
Qed.

Lemma iterations_failed (idx : list Z) (vs : list vector) (e : exn) :
  iterations idx vs (inl e) ->
  exists vs0 v i,
    vs = vs0 ++ [v] /\ idx !! length vs0 = Some i /\ verdict i v = inl e /\
    Forall2 (fun i v => verdict i v = inr tt) (take (length vs0) idx) vs0.
Proof.
  remember (inl e) as r eqn:Hr. induction 1 as [|i idx v vs r Hv Hit IH|i idx v e' Hv];
    try discriminate.
  - destruct (IH Hr) as (vs0 & v' & j & -> & Hj & Hf & Hall).
    exists (v :: vs0), v', j. cbn. repeat split; auto.
  - injection Hr as ->. exists [], v, i. cbn. repeat split; auto.
Qed.

Lemma range_lookup (n k : nat) (i : Z) :
  range n !! k = Some i -> i = Z.of_nat k.
Proof.
  unfold range. rewrite list_lookup_fmap.
  destruct (seq 0 n !! k) as [j|] eqn:Hj; [| discriminate].
  apply lookup_seq in Hj. cbn. intros [= <-]. lia.
Qed.

Lemma range_length (n : nat) : length (range n) = n.
Proof. unfold range. rewrite length_map, length_seq. reflexivity. Qed.

(** ** What reaches the device *)

Lemma filter_draw_events (v : vector) :
  List.filter is_dut_event (draw_events v) = [].
Proof.
  unfold draw_events.
  rewrite !List.filter_app.
  assert (H : forall l, List.filter is_dut_event (map (EvRandInt (-128) 127) l) = []).
  { induction l; cbn; auto. }
  rewrite !H. reflexivity.
Qed.

Lemma filter_vector_events (vs : list vector) :
  List.filter is_dut_event (concat (map vector_events vs))
  = concat (map transaction vs).
Proof.
  induction vs as [|v vs IH]; [reflexivity|].
  cbn [map concat]. unfold vector_events at 1.
  rewrite !List.filter_app, filter_draw_events, IH. reflexivity.
Qed.

Lemma seq_run_transactions (vs : list vector) (s : seq_state) :
  s = Idle \/ s = Captured -> vs <> [] ->
  seq_run s (concat (map transaction vs)) = Some Captured.
Proof.
  revert s. induction vs as [|v vs IH]; intros s Hs Hne; [congruence|].
  cbn [map concat].
  destruct vs as [|v' vs].
  - destruct Hs as [-> | ->]; reflexivity.
  - specialize (IH Captured (or_intror eq_refl) ltac:(discriminate)).
    destruct Hs as [-> | ->]; exact IH.
Qed.

End Harness.

Section HarnessFacts.

Local Open Scope Z_scope.

Lemma range_1000_nonempty : range 1000 <> [].
Proof.
  intros H. apply (f_equal (@length Z)) in H.
  rewrite range_length in H. discriminate.
Qed.

Lemma verdict_passes (i : Z) (v : vector) :
  length (v_rs1 v) = 4%nat -> length (v_rs2 v) = 4%nat ->
  verdict i v = inr tt -> vector_passes v.
Proof.
  intros L1 L2 Hv.
  destruct (verdict_cases i v L1 L2)
    as (expected & He & [(Hvalid & Hgot & _) | [(_ & H) | (_ & _ & H)]]);
    try congruence.
  split; [assumption | congruence].
Qed.

Lemma passing_vectors (idx : list Z) (vs : list vector) :
  Forall (fun v => length (v_rs1 v) = 4%nat /\ length (v_rs2 v) = 4%nat) vs ->
  Forall2 (fun i v => verdict i v = inr tt) idx vs ->
  Forall vector_passes vs.
Proof.
  intros Hshape Hall. revert Hshape.
  induction Hall as [|i v idx vs Hv Hall IH]; intros Hshape; [constructor|].
  apply Forall_cons in Hshape as [[L1 L2] Hshape].
  constructor; eauto using verdict_passes.
Qed.


(** ** The text of the mismatch diagnostic *)

Lemma prefix_refl (s : string) : String.prefix s s = true.
Proof.
  induction s as [|c s IH]; cbn; [reflexivity|].
  destruct (ascii_dec c c); [exact IH | congruence].
Qed.

Lemma append_cons (c : ascii) (s t : string) :
  String c s +:+ t = String c (s +:+ t).
Proof. reflexivity. Qed.

Lemma prefix_app (s t : string) : String.prefix s (s +:+ t) = true.
Proof.
  induction s as [|c s IH]; [destruct t; reflexivity|].
  rewrite append_cons. cbn [String.prefix].
  destruct (ascii_dec c c); [exact IH | congruence].
Qed.

Lemma contains_refl (s : string) : contains s s = true.
Proof.
  destruct s as [|c s]; [reflexivity|].
  cbn [contains]. rewrite prefix_refl. reflexivity.
Qed.

Lemma contains_here (sub t : string) : contains sub (sub +:+ t) = true.
Proof.
  pose proof (prefix_app sub t) as H.
  destruct (sub +:+ t); cbn [contains]; rewrite H; reflexivity.
Qed.

Lemma contains_app_r (sub a t : string) :
  contains sub t = true -> contains sub (a +:+ t) = true.
Proof.
  intros H. induction a as [|c a IH]; [exact H|].
  rewrite append_cons. cbn [contains]. rewrite IH. apply orb_true_r.
Qed.

Ltac find_part :=
  first [ apply contains_here | apply contains_refl
        | apply contains_app_r; find_part ].

Lemma mismatch_message_parts (i : Z) (rs1_bytes rs2_bytes : list Z)
    (acc_val expected got : Z) :
  let msg := mismatch_message i rs1_bytes rs2_bytes acc_val expected got in
  contains (repr_int i) msg = true /\
  contains (repr_list rs1_bytes) msg = true /\
  contains (repr_list rs2_bytes) msg = true /\
  contains (repr_int acc_val) msg = true /\
  contains (repr_int expected) msg = true /\
  contains (repr_int got) msg = true.
Proof.
  cbv zeta. unfold mismatch_message.
  repeat split.
  - find_part.
  - do 3 apply contains_app_r. apply contains_here.
  - do 5 apply contains_app_r. apply contains_here.
  - do 7 apply contains_app_r. apply contains_here.
  - do 10 apply contains_app_r. apply contains_here.
  - do 12 apply contains_app_r. apply contains_refl.
Qed.

(** ** The reference device *)

Lemma dut_randint_in_range (f : fault) : randint_in_range (dut_sim f).
Proof.
  intros lo hi w Hle. cbn.
  pose proof (Z.mod_pos_bound
    ((seed w * 1103515245 + 12345) mod 2147483648) (hi - lo + 1) ltac:(lia)).
  lia.
Qed.

(** ** The harness, claim by claim *)

(** C8. [reset_dut] writes zero to each of the eight input ports that the
    test drives, the metadata fields hartid_i, id_i and rd_addr_i among
    them, with the active-low reset rst_ni at 0; it then waits 20 ns, sets
    rst_ni to 1 and awaits one rising edge of the clock.  Both tests start
    their clock and run this sequence before any stimulus. *)
Theorem reset_dut_sequence {W : Type} (sim : simulator W) (w : W) :
  trace_of (run sim reset_dut w)
    = map (fun p => EvSet p 0) reset_ports
      ++ [EvTimer 20; EvSet rst_ni 1; EvRisingEdge] /\
  result_of (run sim reset_dut w) = inr tt /\
  (forall p, kind_of p = Input -> In p reset_ports) /\
  (exists rest,
     trace_of (run sim test_simd_dot w)
       = EvStartClock 10 :: trace_of (run sim reset_dut w) ++ rest) /\
  (exists rest,
     trace_of (run sim test_mac8_legacy w)
       = EvStartClock 10 :: trace_of (run sim reset_dut w) ++ rest).
Proof.
  rewrite run_reset_dut. cbn [trace_of result_of fst snd].
  split; [reflexivity|]. split; [reflexivity|]. split.
  - intros [] Hp; cbn in Hp; try discriminate; cbn; tauto.
  - split.
    + destruct (run_test_simd_dot sim w) as (vs & r & w' & -> & _).
      cbn [trace_of fst]. eauto.
    + destruct (run_test_mac8_legacy sim w) as (got & w' & _ & ->).
      cbn [trace_of fst]. eauto.
Qed.

(** C4. In both tests the device sees, after the reset, whole transactions
    only: the four writes of a vector, exactly two rising edges, and then
    the samples of result_o and valid_o.  The next vector is written only
    after the previous one has been sampled, which is what the sequencer of
    the specification accepts. *)
Theorem two_edges_per_vector {W : Type} (sim : simulator W) (w : W) :
  (exists vs,
     vs <> [] /\
     List.filter is_dut_event (trace_of (run sim test_simd_dot w))
       = EvStartClock 10 :: reset_events ++ concat (map transaction vs) /\
     seq_run Idle (concat (map transaction vs)) = Some Captured) /\
  (exists got,
     trace_of (run sim test_mac8_legacy w)
       = EvStartClock 10 :: reset_events ++ mac8_transaction got /\
     seq_run Idle (mac8_transaction got) = Some Captured).
Proof.
  split.
  - destruct (run_test_simd_dot sim w) as (vs & r & w' & -> & Hit & _).
    exists vs. cbn [trace_of fst].
    assert (Hne : vs <> [])
      by exact (iterations_nonempty _ _ _ Hit range_1000_nonempty).
    split; [exact Hne|]. split.
    + cbn [List.filter is_dut_event]. f_equal.
      rewrite !List.filter_app, filter_vector_events.
      change (List.filter is_dut_event reset_events) with reset_events.
      destruct r; cbn [List.filter passed_log is_dut_event];
        rewrite app_nil_r; reflexivity.
    + apply seq_run_transactions; auto.
  - destruct (run_test_mac8_legacy sim w) as (got & w' & _ & ->).
    exists got. split; reflexivity.
Qed.

(** The sequencer does reject a sample after one edge only, a third edge,
    and a vector written while another is in flight. *)
Example seq_run_rejects :
  seq_run Idle [EvSet rs1_i 1; EvRisingEdge; EvGetSigned result_o 0] = None /\
  seq_run Idle [EvSet rs1_i 1; EvRisingEdge; EvRisingEdge; EvRisingEdge] = None /\
  seq_run Idle [EvSet rs1_i 1; EvRisingEdge; EvSet rs1_i 2] = None.
Proof. repeat split. Qed.

(** C5. The expected value of the directed MAC8 vector rs1=10, rs2=-5,
    acc=20 is -30, and [test_mac8_legacy] passes exactly when the value it
    samples from result_o two edges after driving that vector is -30. *)
Theorem mac8_directed_vector {W : Type} (sim : simulator W) (w : W) :
  mac8_expected 10 (-5) 20 = -30 /\
  exists got,
    trace_of (run sim test_mac8_legacy w)
      = EvStartClock 10 :: reset_events ++ mac8_transaction got /\
    result_of (run sim test_mac8_legacy w)
      = (if got =? mac8_expected 10 (-5) 20 then inr tt
         else inl (AssertionError
                     (mac8_message (mac8_expected 10 (-5) 20) got))) /\
    (passed (run sim test_mac8_legacy w) = true <-> got = -30).
Proof.
  split; [reflexivity|].
  destruct (run_test_mac8_legacy sim w) as (got & w' & _ & ->).
  exists got. cbn [trace_of result_of passed fst snd].
  change (mac8_expected 10 (-5) 20) with (-30).
  split; [reflexivity|]. split; [reflexivity|].
  destruct (Z.eqb_spec got (-30)); cbn; split; congruence.
Qed.



(** C3, where the code departs from it.  No run of [test_mac8_legacy] ever
    reads valid_o, so a device whose valid_o is stuck at 0 passes the MAC8
    check, while the same device fails [test_simd_dot] on its assertion
    that valid_o is 1. *)
Theorem mac8_check_ignores_valid :
  (forall (W : Type) (sim : simulator W) (w : W) (v : Z),
     ~ In (EvGet valid_o v) (trace_of (run sim test_mac8_legacy w))) /\
  (let o := run (dut_sim valid_stuck_low) test_mac8_legacy (dut_init 42) in
   result_of o = inr tt /\
   sim_get (dut_sim valid_stuck_low) valid_o (world_of o) = 0) /\
  result_of (run (dut_sim valid_stuck_low) test_simd_dot (dut_init 42))
    = inl (AssertionError invalid_message).
Proof.
  split; [| split].
  - intros W sim w v.
    destruct (run_test_mac8_legacy sim w) as (got & w' & _ & ->).
    cbn. intros H. repeat destruct H as [H|H]; try discriminate H. exact H.
  - vm_compute. split; reflexivity.
  - vm_compute. reflexivity.
Qed.




(** The reference device passes all 1000 vectors. *)
Example reference_device_passes :
  passed (run (dut_sim no_fault) test_simd_dot (dut_init 42)) = true.
Proof. vm_compute. reflexivity. Qed.

(** How a run of [test_simd_dot] ends.  A run is a sequence of whole
    vectors.  Either all 1000 pass both assertions, or the run ends with the
    first vector that fails one, with nothing after its samples: if valid_o
    is not 1 the exception carries the fixed text
    "Output should be valid for SIMD_DOT"; if valid_o is 1 and the value
    differs from the expected one, the exception text contains the index of
    the iteration, both operand byte lists, the accumulator, and the
    expected and the captured value. *)
Theorem first_mismatch_aborts {W : Type} (sim : simulator W) (w : W) :
  exists vs,
    trace_of (run sim test_simd_dot w)
      = EvStartClock 10 :: reset_events ++ concat (map vector_events vs)
        ++ (if passed (run sim test_simd_dot w) then passed_log else []) /\
    match result_of (run sim test_simd_dot w) with
    | inr _ => length vs = 1000%nat /\ Forall vector_passes vs
    | inl e =>
        exists vs0 v expected,
          vs = vs0 ++ [v] /\ (length vs0 < 1000)%nat /\
          Forall vector_passes vs0 /\
          simd_dot_expected (v_rs1 v) (v_rs2 v) (v_acc v) = Some expected /\
          ((v_valid v <> 1 /\ e = AssertionError invalid_message) \/
           (v_valid v = 1 /\ v_got v <> expected /\
            let msg :=
              mismatch_message (Z.of_nat (length vs0)) (v_rs1 v) (v_rs2 v)
                (v_acc v) expected (v_got v) in
            e = AssertionError msg /\
            contains (repr_int (Z.of_nat (length vs0))) msg = true /\
            contains (repr_list (v_rs1 v)) msg = true /\
            contains (repr_list (v_rs2 v)) msg = true /\
            contains (repr_int (v_acc v)) msg = true /\
            contains (repr_int expected) msg = true /\
            contains (repr_int (v_got v)) msg = true))
    end.
Proof.
  destruct (run_test_simd_dot sim w)
    as (vs & r & w' & -> & Hit & Hshape & _).
  exists vs. cbn [trace_of passed result_of fst snd].
  split; [destruct r; reflexivity|].
  destruct r as [e|u].
  - destruct (iterations_failed _ _ _ Hit)
      as (vs0 & v & i & -> & Hi & Hfail & Hall).
    apply Forall_app in Hshape as [Hshape0 Hv].
    apply Forall_cons in Hv as [[L1 L2] _].
    apply range_lookup in Hi as Hidx. subst i.
    apply lookup_lt_Some in Hi. rewrite range_length in Hi.
    destruct (verdict_cases (Z.of_nat (length vs0)) v L1 L2)
      as (expected & He & [(_ & _ & H) | [(Hvalid & H) | (Hvalid & Hgot & H)]]);
      [congruence | |].
    + exists vs0, v, expected. repeat split; eauto using passing_vectors.
      left. split; congruence.
    + exists vs0, v, expected.
      split; [reflexivity|]. split; [exact Hi|].
      split; [eauto using passing_vectors|]. split; [exact He|].
      right. split; [exact Hvalid|]. split; [exact Hgot|].
      cbv zeta. split; [congruence|]. apply mismatch_message_parts.
  - pose proof (iterations_passed _ _ _ Hit) as Hall. split.
    + apply Forall2_length in Hall. rewrite range_length in Hall. auto.
    + eauto using passing_vectors.
Qed.

(** C7, where the code departs from it.  When it is the valid flag that
    disagrees, the assertion of line 99 raises with a fixed text: on a
    device whose valid_o is stuck at 0 the first iteration raises, and the
    text of the exception contains neither the index 0 of the iteration,
    nor the operand bytes, nor the accumulator, nor the captured value. The
    assertion on the value, two lines below, formats all of them. *)
Lemma invalid_diagnostic_lacks_vector :
  let o := run (dut_sim valid_stuck_low) test_simd_dot (dut_init 42) in
  let v := {| v_rs1 := [-101; 56; 17; 118]; v_rs2 := [119; -28; 77; 2];
              v_acc := -832494189; v_got := -832506231; v_valid := 0 |} in
  trace_of o = EvStartClock 10 :: reset_events ++ vector_events v /\
  result_of o = inl (AssertionError invalid_message) /\
  contains (repr_int 0) invalid_message = false /\
  contains (repr_list (v_rs1 v)) invalid_message = false /\
  contains (repr_list (v_rs2 v)) invalid_message = false /\
  contains (repr_int (v_acc v)) invalid_message = false /\
  contains (repr_int (v_got v)) invalid_message = false.
Proof. vm_compute. repeat split. Qed.

(** On a device that is valid but off by one, the same iteration raises
    with the full diagnostic. *)
Example mismatch_diagnostic_text :
  result_of (run (dut_sim result_off_by_one) test_simd_dot (dut_init 42))
  = inl (AssertionError
      ("Iter 0: Mismatch! rs1=[-101, 56, 17, 118], rs2=[119, -28, 77, 2], "
       +:+ "acc=-832494189" +:+ newline
       +:+ "Expected: -832506231, Got: -832506230")).
Proof. vm_compute. reflexivity. Qed.

End HarnessFacts.

(** ** More about the golden model and the tests *)

Section GoldenModelMore.
Local Open Scope Z_scope.

Lemma testbit_low_word (v n : Z) :
  0 <= n ->
  Z.testbit (v mod 4294967296) n = (n <? 32) && Z.testbit v n.
Proof.
  intros Hn. change 4294967296 with (2 ^ 32).
  destruct (Z.ltb_spec n 32).
  - rewrite Z.mod_pow2_bits_low by lia. reflexivity.
  - rewrite Z.mod_pow2_bits_high by lia. reflexivity.
Qed.

Lemma get_signed_bytes_lanes (val : Z) :
  get_signed_bytes val
  = [signed_lane val 0; signed_lane val 1; signed_lane val 2; signed_lane val 3].
Proof. reflexivity. Qed.

Lemma testbit_signed_lane (val i n : Z) :
  0 <= i -> 0 <= n < 8 ->
  Z.testbit (signed_lane val i) n = Z.testbit val (n + i * 8).
Proof.
  intros Hi Hn. unfold signed_lane. cbv zeta.
  set (byte := Z.land (Z.shiftr val (i * 8)) 255).
  assert (Hb : Z.testbit byte n = Z.testbit val (n + i * 8)).
  { unfold byte. rewrite Z.land_spec, Z.shiftr_spec, testbit_255 by lia.
    destruct (Z.ltb_spec n 8); [| lia]. apply andb_true_r. }
  destruct (byte >=? 128); [| exact Hb].
  rewrite <- Hb.
  rewrite <- (Z.mod_pow2_bits_low (byte - 256) 8 n) by lia.
  rewrite <- (Z.mod_pow2_bits_low byte 8 n) by lia.
  f_equal. change (2 ^ 8) with 256.
  replace (byte - 256) with (byte + (-1) * 256) by lia.
  apply Z.mod_add. lia.
Qed.

Lemma word4_signed_lanes (val : Z) :
  word4 (signed_lane val 0) (signed_lane val 1) (signed_lane val 2)
    (signed_lane val 3) = val mod 4294967296.
Proof.
  apply Z.bits_inj'. intros n Hn.
  rewrite testbit_word4, testbit_low_word by lia.
  destruct (Z.ltb_spec n 8); [rewrite testbit_signed_lane by lia|].
  { destruct (Z.ltb_spec n 32); [| lia]. cbn. f_equal. lia. }
  destruct (Z.ltb_spec n 16); [rewrite testbit_signed_lane by lia|].
  { destruct (Z.ltb_spec n 32); [| lia]. cbn. f_equal. lia. }
  destruct (Z.ltb_spec n 24); [rewrite testbit_signed_lane by lia|].
  { destruct (Z.ltb_spec n 32); [| lia]. cbn. f_equal. lia. }
  destruct (Z.ltb_spec n 32); [rewrite testbit_signed_lane by lia|].
  { cbn. f_equal. lia. }
  reflexivity.
Qed.

Lemma signed_lane_low_word (val i : Z) :
  0 <= i < 4 -> signed_lane (val mod 4294967296) i = signed_lane val i.
Proof.
  intros Hi. unfold signed_lane. cbv zeta.
  assert (H : Z.land (Z.shiftr (val mod 4294967296) (i * 8)) 255
              = Z.land (Z.shiftr val (i * 8)) 255).
  { apply Z.bits_inj'. intros n Hn.
    rewrite !Z.land_spec, !Z.shiftr_spec, testbit_low_word, testbit_255 by lia.
    destruct (Z.ltb_spec n 8); [| rewrite !andb_false_r; reflexivity].
    destruct (Z.ltb_spec (n + i * 8) 32); [reflexivity | lia]. }
  rewrite H. reflexivity.
Qed.

(** X1. [get_signed_bytes] accepts any integer, negative ones too: it
    returns four bytes of [-128,127] that depend on the low 32 bits only, and
    the packing loop of [test_simd_dot] rebuilds exactly those low 32 bits
    from them. *)
Theorem get_signed_bytes_of_any_integer (val1 val2 : Z) :
  length (get_signed_bytes val1) = 4%nat /\
  Forall int8 (get_signed_bytes val1) /\
  get_signed_bytes (val1 mod 4294967296) = get_signed_bytes val1 /\
  pack_operands (get_signed_bytes val1) (get_signed_bytes val2)
    = Some (val1 mod 4294967296, val2 mod 4294967296).
Proof.
  split; [reflexivity|]. split; [apply get_signed_bytes_int8|]. split.
  - rewrite !get_signed_bytes_lanes, !signed_lane_low_word by lia. reflexivity.
  - rewrite !get_signed_bytes_lanes, pack_operands_4, !word4_signed_lanes.
    reflexivity.
Qed.

(** X2. The overflow handling of lines 89-93 is a reduction into the
    signed 32-bit range exactly for sums between -3*2^31 and 3*2^31-1:
    outside of that its result is not a 32-bit value; and it leaves a sum
    unchanged exactly when the sum is already a 32-bit value. *)
Theorem handle_overflow_exact_range (x : Z) :
  (handle_overflow x = wrap_signed32 x <-> -6442450944 <= x <= 6442450943) /\
  (int32 (handle_overflow x) <-> -6442450944 <= x <= 6442450943) /\
  (handle_overflow x = x <-> int32 x).
Proof.
  pose proof (wrap_signed32_range x) as Hw.
  assert (Hin : int32 (handle_overflow x) <-> -6442450944 <= x <= 6442450943).
  { unfold int32, handle_overflow.
    destruct (Z.gtb_spec x 2147483647), (Z.ltb_spec x (-2147483648)); lia. }
  split; [| split; [exact Hin|]].
  - split; [| apply handle_overflow_wraps].
    intros Heq. apply Hin. rewrite Heq. exact Hw.
  - unfold int32, handle_overflow.
    destruct (Z.gtb_spec x 2147483647), (Z.ltb_spec x (-2147483648)); lia.
Qed.

Lemma dot_product_comm (rs1_bytes rs2_bytes : list Z) :
  dot_product rs1_bytes rs2_bytes = dot_product rs2_bytes rs1_bytes.
Proof.
  unfold dot_product. generalize (Some 0). generalize (range 4).
  intros idx. induction idx as [|b idx IH]; intros st; [reflexivity|].
  cbn [fold_left]. rewrite <- IH. f_equal.
  unfold dot_step. destruct st as [d|]; [| reflexivity]. cbn.
  destruct (getitem rs1_bytes b), (getitem rs2_bytes b); cbn; try reflexivity.
  f_equal. lia.
Qed.

(** X3. The expected value of SIMD_DOT does not change when the two
    operands are swapped, whatever the lists are. *)
Theorem simd_dot_expected_comm (rs1_bytes rs2_bytes : list Z) (acc_val : Z) :
  simd_dot_expected rs1_bytes rs2_bytes acc_val
  = simd_dot_expected rs2_bytes rs1_bytes acc_val.
Proof. unfold simd_dot_expected. rewrite dot_product_comm. reflexivity. Qed.

End GoldenModelMore.

Section HarnessMore.

Local Open Scope Z_scope.

Context {W : Type} (sim : simulator W).

Lemma in_concat_vector_events (e : event) (vs : list vector) :
  In e (concat (map vector_events vs)) ->
  exists v, In v vs /\ (In e (draw_events v) \/ In e (transaction v)).
Proof.
  induction vs as [|v vs IH]; cbn [map concat]; [intros []|].
  rewrite in_app_iff. intros [H|H].
  - exists v. split; [left; reflexivity|].
    unfold vector_events in H. apply in_app_iff in H. exact H.
  - destruct (IH H) as (v' & Hv' & He). exists v'. split; [right|]; assumption.
Qed.

Lemma in_draw_events (e : event) (v : vector) :
  In e (draw_events v) -> exists lo hi x, e = EvRandInt lo hi x.
Proof.
  unfold draw_events. rewrite !in_app_iff, !in_map_iff.
  intros [(x & <- & _) | [(x & <- & _) | [<- | []]]]; eauto.
Qed.

(** X4. Neither test raises IndexError: no index into a list of lane
    bytes is out of range.  And no assertion fails without cause: an
    AssertionError of [test_simd_dot] comes from the vector that ends the
    run, at an iteration below 1000, either with the fixed text when
    valid_o is not 1 there, or with the text of that iteration and vector
    when valid_o is 1 and the captured value differs from the expected
    one; an AssertionError of [test_mac8_legacy] names a captured value
    other than -30.  Exceptions that a read of the simulator itself may
    raise are not part of the model and not covered. *)
Theorem no_index_error_and_sound_assertions (w : W) :
  result_of (run sim test_simd_dot w) <> inl IndexError /\
  result_of (run sim test_mac8_legacy w) <> inl IndexError /\
  (forall msg,
     result_of (run sim test_simd_dot w) = inl (AssertionError msg) ->
     exists vs0 v expected,
       trace_of (run sim test_simd_dot w)
         = EvStartClock 10 :: reset_events
           ++ concat (map vector_events (vs0 ++ [v])) /\
       (length vs0 < 1000)%nat /\
       simd_dot_expected (v_rs1 v) (v_rs2 v) (v_acc v) = Some expected /\
       ((v_valid v <> 1 /\ msg = invalid_message) \/
        (v_valid v = 1 /\ v_got v <> expected /\
         msg = mismatch_message (Z.of_nat (length vs0)) (v_rs1 v) (v_rs2 v)
                 (v_acc v) expected (v_got v)))) /\
  (forall msg,
     result_of (run sim test_mac8_legacy w) = inl (AssertionError msg) ->
     exists got,
       trace_of (run sim test_mac8_legacy w)
         = EvStartClock 10 :: reset_events ++ mac8_transaction got /\
       got <> -30 /\ msg = mac8_message (-30) got).
Proof.
  split; [| split; [| split]].
  - destruct (run_test_simd_dot sim w) as (vs & r & w' & -> & Hit & Hshape & _).
    cbn [result_of fst snd]. intros ->.
    destruct (iterations_failed _ _ _ Hit) as (vs0 & v & i & -> & Hi & Hfail & _).
    apply Forall_app in Hshape as [_ Hv].
    apply Forall_cons in Hv as [[L1 L2] _].
    destruct (verdict_cases i v L1 L2)
      as (expected & He & [(_ & _ & H) | [(_ & H) | (_ & Hgot & H)]]);
      congruence.
  - destruct (run_test_mac8_legacy sim w) as (got & w' & _ & ->).
    cbn [result_of fst snd]. destruct (got =? -30); discriminate.
  - destruct (run_test_simd_dot sim w) as (vs & r & w' & -> & Hit & Hshape & _).
    cbn [result_of trace_of fst snd]. intros msg ->.
    destruct (iterations_failed _ _ _ Hit) as (vs0 & v & i & -> & Hi & Hfail & _).
    apply Forall_app in Hshape as [_ Hv].
    apply Forall_cons in Hv as [[L1 L2] _].
    apply range_lookup in Hi as Hidx. subst i.
    apply lookup_lt_Some in Hi. rewrite range_length in Hi.
    destruct (verdict_cases (Z.of_nat (length vs0)) v L1 L2)
      as (expected & He & [(_ & _ & H) | [(Hvalid & H) | (Hvalid & Hgot & H)]]);
      [congruence | |]; exists vs0, v, expected;
      (split; [rewrite app_nil_r; reflexivity|]);
      (split; [exact Hi|]); (split; [exact He|]).
    + left. split; congruence.
    + right. split; [exact Hvalid|]. split; [exact Hgot|]. congruence.
  - destruct (run_test_mac8_legacy sim w) as (got & w' & _ & ->).
    cbn [result_of trace_of fst snd]. intros msg.
    destruct (Z.eqb_spec got (-30)); [discriminate|].
    intros [= <-]. exists got. auto.
Qed.

(** X5. After the reset the tests write to rs1_i, rs2_i, rd_i and
    opcode_i only, and the opcode they write is always the one under test:
    the reset is never asserted again, the metadata ports are never
    touched, no timer is awaited and no second clock is started.  The only
    signed read is of result_o.  [test_simd_dot] reads nothing else but
    valid_o; [test_mac8_legacy] reads nothing else at all, not valid_o
    either, draws nothing from [random] and logs nothing. *)
Theorem stimulus_drives_data_ports_only (w : W) :
  (exists rest,
     trace_of (run sim test_simd_dot w)
       = EvStartClock 10 :: reset_events ++ rest /\
     forall e, In e rest ->
       match e with
       | EvSet p v =>
           p = rs1_i \/ p = rs2_i \/ p = rd_i \/ (p = opcode_i /\ v = OP_SIMD_DOT)
       | EvGetSigned p _ => p = result_o
       | EvGet p _ => p = valid_o
       | EvTimer _ | EvStartClock _ => False
       | EvRisingEdge | EvRandInt _ _ _ | EvLog _ => True
       end) /\
  (exists rest,
     trace_of (run sim test_mac8_legacy w)
       = EvStartClock 10 :: reset_events ++ rest /\
     forall e, In e rest ->
       match e with
       | EvSet p v =>
           p = rs1_i \/ p = rs2_i \/ p = rd_i \/ (p = opcode_i /\ v = OP_MAC8)
       | EvGetSigned p _ => p = result_o
       | EvRisingEdge => True
       | EvTimer _ | EvStartClock _ | EvRandInt _ _ _ | EvGet _ _
       | EvLog _ => False
       end).
Proof.
  split.
  - destruct (run_test_simd_dot sim w) as (vs & r & w' & -> & _).
    eexists. cbn [trace_of fst]. split; [reflexivity|].
    intros e [He|He]%in_app_iff.
    + destruct (in_concat_vector_events _ _ He) as (v & _ & [Hd|Ht]).
      * destruct (in_draw_events _ _ Hd) as (lo & hi & x & ->). exact I.
      * cbn in Ht.
        repeat (destruct Ht as [<-|Ht]; [solve [auto 6 | exact I | reflexivity]|]).
        destruct Ht.
    + destruct r; [destruct He|]. destruct He as [<-|[]]. exact I.
  - destruct (run_test_mac8_legacy sim w) as (got & w' & _ & ->).
    eexists. cbn [trace_of fst]. split; [reflexivity|].
    intros e He. cbn in He.
    repeat (destruct He as [<-|He]; [solve [auto 6 | exact I | reflexivity]|]).
    destruct He.
Qed.

Lemma fits_reset_events (p : port) (v : Z) :
  In (EvSet p v) reset_events -> fits_port p v.
Proof.
  cbn. intros H.
  repeat (destruct H as [H|H];
    [first [discriminate H
           | injection H as <- <-; cbn; unfold int32, OP_ILLEGAL; lia]|]).
  destruct H.
Qed.

(** X6. With a [random] module that keeps to its bounds, every value that
    [test_simd_dot] writes fits its port: the operand words are in
    [0, 2^32), the accumulator is a signed 32-bit value (written as it is,
    negative or not), the opcode is 0 or 5, the reset is 0 or 1, and the
    metadata ports get 0. *)
Theorem driven_values_fit_ports (w : W) :
  randint_in_range sim ->
  List.Forall write_fits (trace_of (run sim test_simd_dot w)).
Proof.
  intros Hsim. apply List.Forall_forall. intros [| p v | | | | | |]; try (intros _; exact I).
  cbn [write_fits].
  destruct (run_test_simd_dot sim w) as (vs & r & w' & -> & _ & Hshape & Hrange).
  specialize (Hrange Hsim). cbn [trace_of fst].
  intros [H|H]; [discriminate|].
  apply in_app_iff in H as [H|H]; [apply fits_reset_events; exact H|].
  apply in_app_iff in H as [H|H].
  - destruct (in_concat_vector_events _ _ H) as (x & Hx & [Hd|Ht]).
    + destruct (in_draw_events _ _ Hd) as (? & ? & ? & ?). discriminate.
    + rewrite Forall_forall in Hshape, Hrange.
      apply list_elem_of_In in Hx.
      destruct (Hshape x Hx) as [L1 L2].
      destruct (Hrange x Hx) as (R1 & R2 & R3).
      destruct (length_4_inv _ L1) as (a & b & c & d & E1).
      destruct (length_4_inv _ L2) as (e & f & g & h & E2).
      cbn in Ht. rewrite E1, E2, !pack_word_4 in Ht.
      destruct Ht as [Ht|[Ht|[Ht|[Ht|[Ht|[Ht|[Ht|[Ht|[]]]]]]]]];
        try discriminate Ht; injection Ht as <- <-; cbn.
      * apply word4_range.
      * apply word4_range.
      * exact R3.
      * right; reflexivity.
  - destruct r; [destruct H|]. destruct H as [H|[]]. discriminate.
Qed.

Lemma count_vector_events (vs : list vector) :
  Forall (fun v => length (v_rs1 v) = 4%nat /\ length (v_rs2 v) = 4%nat) vs ->
  length (List.filter is_edge (concat (map vector_events vs))) = (2 * length vs)%nat /\
  length (List.filter is_draw (concat (map vector_events vs))) = (9 * length vs)%nat.
Proof.
  induction 1 as [|v vs [L1 L2] _ [IH1 IH2]]; [split; reflexivity|].
  cbn [map concat]. rewrite !List.filter_app, !length_app, IH1, IH2.
  destruct (length_4_inv _ L1) as (a & b & c & d & E1).
  destruct (length_4_inv _ L2) as (e & f & g & h & E2).
  unfold vector_events, draw_events, transaction. rewrite E1, E2. cbn. lia.
Qed.

(** X7. A run of [test_simd_dot] over n vectors awaits 1 + 2n rising
    edges and draws 9n random numbers, with n between 1 and 1000, and
    n = 1000 when the test passes. *)
Theorem edges_and_draws_per_run (w : W) :
  exists n : nat,
    (1 <= n <= 1000)%nat /\
    (passed (run sim test_simd_dot w) = true -> n = 1000%nat) /\
    length (List.filter is_edge (trace_of (run sim test_simd_dot w)))
      = (1 + 2 * n)%nat /\
    length (List.filter is_draw (trace_of (run sim test_simd_dot w)))
      = (9 * n)%nat.
Proof.
  destruct (run_test_simd_dot sim w) as (vs & r & w' & -> & Hit & Hshape & _).
  exists (length vs). cbn [trace_of passed result_of fst snd].
  destruct (count_vector_events vs Hshape) as [He Hd].
  split; [split|].
  - pose proof (iterations_nonempty _ _ _ Hit range_1000_nonempty).
    destruct vs; [congruence | cbn; lia].
  - apply iterations_length in Hit. rewrite range_length in Hit. exact Hit.
  - split.
    + destruct r as [e|u]; [discriminate|]. intros _.
      apply iterations_passed, Forall2_length in Hit.
      rewrite range_length in Hit. symmetry. exact Hit.
    + cbn [List.filter is_edge is_draw].
      rewrite !List.filter_app, !length_app, He, Hd.
      destruct r; cbn; lia.
Qed.

End HarnessMore.

Section GoldenModelInRange.

Local Open Scope Z_scope.

Lemma simd_dot_expected_in_range (rs1_bytes rs2_bytes : list Z) (acc_val : Z) :
  length rs1_bytes = 4%nat -> length rs2_bytes = 4%nat ->
  Forall int8 rs1_bytes -> Forall int8 rs2_bytes -> int32 acc_val ->
  simd_dot_expected rs1_bytes rs2_bytes acc_val
  = Some (wrap_signed32 (lane_dot rs1_bytes rs2_bytes + acc_val)).
Proof.
  intros L1 L2 H1 H2 Hacc.
  pose proof (lane_dot_bounds _ _ L1 L2 H1 H2) as Hdot.
  destruct (length_4_inv _ L1) as (a & b & c & d & ->).
  destruct (length_4_inv _ L2) as (e & f & g & h & ->).
  rewrite simd_dot_expected_4. rewrite lane_dot_4 in *.
  replace (0 + a * e + b * f + c * g + d * h + acc_val)
    with (a * e + b * f + c * g + d * h + acc_val) by lia.
  unfold int32 in Hacc. rewrite handle_overflow_wraps by lia. reflexivity.
Qed.

End GoldenModelInRange.

Section Completeness.

Local Open Scope Z_scope.

Context {W : Type} (sim : simulator W) (ready : W -> Prop).
Hypothesis Hrand : randint_in_range sim.
Hypothesis Hdev : simd_dot_device sim ready.

Lemma run_randint_list_ready (n : nat) (lo hi : Z) (w : W) :
  lo <= hi -> ready w ->
  exists l w',
    run sim (randint_list n lo hi) w = (map (EvRandInt lo hi) l, inr l, w') /\
    length l = n /\ Forall (fun x => lo <= x <= hi) l /\ ready w'.
Proof.
  intros Hle. revert w. induction n as [|n IH]; intros w Hw.
  - exists [], w. repeat split; [constructor | exact Hw].
  - cbn [randint_list]. rewrite run_mbind. cbn [randint run].
    pose proof (Hrand lo hi w Hle) as Hr.
    pose proof (ready_randint _ _ Hdev lo hi w Hw) as Hw1.
    destruct (sim_randint sim lo hi w) as [x w1].
    cbn [emit then_run]. rewrite run_mbind.
    destruct (IH w1 Hw1) as (l & w2 & -> & Hlen & Hin & Hw2).
    cbn. exists (x :: l), w2. rewrite app_nil_r.
    repeat split; [cbn; lia | constructor; assumption | exact Hw2].
Qed.

Lemma run_simd_dot_iteration_ready (i : Z) (w : W) :
  ready w ->
  exists v w',
    run sim (simd_dot_iteration i) w = (vector_events v, inr tt, w') /\
    ready w'.
Proof.
  intros Hw. unfold simd_dot_iteration.
  rewrite run_mbind.
  destruct (run_randint_list_ready 4 (-128) 127 w ltac:(lia) Hw)
    as (l1 & w1 & -> & L1 & R1 & Hw1).
  cbn [then_run]. rewrite run_mbind.
  destruct (run_randint_list_ready 4 (-128) 127 w1 ltac:(lia) Hw1)
    as (l2 & w2 & -> & L2 & R2 & Hw2).
  cbn [then_run]. rewrite run_mbind. cbn [randint run].
  pose proof (Hrand (-2147483648) 2147483647 w2 ltac:(lia)) as R3.
  pose proof (ready_randint _ _ Hdev (-2147483648) 2147483647 w2 Hw2) as Hw3.
  destruct (sim_randint sim (-2147483648) 2147483647 w2) as [acc w3].
  cbn [emit then_run fst snd] in *.
  destruct (ready_vector _ _ Hdev l1 l2 acc w3 Hw3 L1 L2 R1 R2 R3)
    as (Hready & Hvalid & Hgot).
  pose proof (simd_dot_expected_in_range l1 l2 acc L1 L2 R1 R2 R3) as Hexp.
  destruct (length_4_inv _ L1) as (a & b & c & d & ->).
  destruct (length_4_inv _ L2) as (e & f & g & h & ->).
  unfold after_vector in Hready, Hvalid, Hgot. cbv zeta in Hready, Hvalid, Hgot.
  rewrite !pack_word_4 in Hready, Hvalid, Hgot.
  remember (sim_rising_edge sim (sim_rising_edge sim
              (sim_set sim opcode_i OP_SIMD_DOT
                (sim_set sim rd_i acc
                  (sim_set sim rs2_i (word4 e f g h)
                    (sim_set sim rs1_i (word4 a b c d) w3)))))) as wf eqn:Ewf.
  exists {| v_rs1 := [a; b; c; d]; v_rs2 := [e; f; g; h]; v_acc := acc;
            v_got := sim_get_signed sim result_o wf;
            v_valid := sim_get sim valid_o wf |}, wf.
  split; [| exact Hready].
  unfold vector_events, draw_events, transaction.
  cbn [v_rs1 v_rs2 v_acc v_got v_valid].
  rewrite Hexp, pack_operands_4, !pack_word_4.
  unfold mbind, prog_bind.
  cbn [lift_index bind run set_value await_rising_edge get_signed_integer
       get_value emit].
  rewrite <- Ewf, Hvalid, Hgot, !Z.eqb_refl. reflexivity.
Qed.

Lemma run_simd_dot_loop_ready (idx : list Z) (w : W) :
  ready w ->
  exists vs w',
    run sim (for_each idx simd_dot_iteration) w
      = (concat (map vector_events vs), inr tt, w') /\
    length vs = length idx /\ ready w'.
Proof.
  revert w. induction idx as [|i idx IH]; intros w Hw.
  - exists [], w. repeat split. exact Hw.
  - cbn [for_each]. rewrite run_mbind.
    destruct (run_simd_dot_iteration_ready i w Hw) as (v & w1 & -> & Hw1).
    cbn [then_run].
    destruct (IH w1 Hw1) as (vs & w2 & -> & Hlen & Hw2).
    exists (v :: vs), w2. cbn. repeat split; [lia | exact Hw2].
Qed.

(** X8. [test_simd_dot] raises no false alarm: on a device that, once out
    of reset, answers every in-range vector two edges later with valid_o = 1
    and the dot product plus accumulator reduced into the signed 32-bit
    range, and with a [random] module that keeps to its bounds, the test
    runs all 1000 vectors, logs its last line and passes. *)
Theorem correct_device_passes (w : W) :
  ready (after_reset sim w) ->
  passed (run sim test_simd_dot w) = true /\
  exists vs,
    length vs = 1000%nat /\
    trace_of (run sim test_simd_dot w)
      = EvStartClock 10 :: reset_events ++ concat (map vector_events vs)
        ++ passed_log.
Proof.
  intros Hw. unfold after_reset in Hw. rewrite run_reset_dut in Hw.
  cbn [world_of snd] in Hw.
  unfold test_simd_dot, reset_dut, mbind, prog_bind.
  cbn [bind start_clock set_value await_timer await_rising_edge run emit].
  match goal with
  | |- context [run sim (bind (for_each _ _) ?k) ?w0] =>
      rewrite (run_bind sim (for_each _ _) k w0);
      destruct (run_simd_dot_loop_ready (range 1000) w0 Hw)
        as (vs & w1 & -> & Hlen & _)
  end.
  cbn [then_run log_info run emit passed result_of trace_of fst snd].
  split; [reflexivity|]. exists vs. rewrite range_length in Hlen.
  split; [exact Hlen | reflexivity].
Qed.

End Completeness.

Section ReferenceDevice.

Local Open Scope Z_scope.

(** The reference device meets the contract. *)
Lemma to_signed_32_wrap (x : Z) : to_signed 32 x = wrap_signed32 x.
Proof. reflexivity. Qed.

Lemma to_signed_32_int32 (x : Z) : int32 x -> to_signed 32 (x mod 2 ^ 32) = x.
Proof.
  unfold int32, to_signed. cbv zeta. intros Hx.
  change (2 ^ 32) with 4294967296. change (2 ^ (32 - 1)) with 2147483648.
  rewrite Z.mod_mod by lia.
  pose proof (Z.mod_pos_bound x 4294967296 ltac:(lia)).
  pose proof (Z.div_mod x 4294967296 ltac:(lia)).
  destruct (Z.ltb_spec (x mod 4294967296) 2147483648); lia.
Qed.

Lemma dot_product_4 (a b c d e f g h : Z) :
  dot_product [a; b; c; d] [e; f; g; h]
  = Some (0 + a * e + b * f + c * g + d * h).
Proof. reflexivity. Qed.

Lemma dut_rising_edge_ready (f : fault) (w : dut_state) :
  dut_ready w ->
  dut_rising_edge f w
  = {| inputs := inputs w;
       result_q :=
         (ref_compute (inputs w opcode_i) (inputs w rs1_i) (inputs w rs2_i)
            (inputs w rd_i) + result_error f) mod 2 ^ 32;
       valid_q :=
         match stuck_valid f with
         | Some v => v
         | None =>
             if (1 <=? inputs w opcode_i) && (inputs w opcode_i <=? 5)
             then 1 else 0
         end;
       seed := seed w |}.
Proof. unfold dut_ready, dut_rising_edge. intros ->. reflexivity. Qed.

Lemma ref_compute_simd_dot (a b c d e f g h acc : Z) :
  int8 a -> int8 b -> int8 c -> int8 d ->
  int8 e -> int8 f -> int8 g -> int8 h -> int32 acc ->
  to_signed 32
    ((ref_compute OP_SIMD_DOT (word4 a b c d mod 2 ^ 32)
        (word4 e f g h mod 2 ^ 32) (acc mod 2 ^ 32) + 0) mod 2 ^ 32)
  = wrap_signed32 (lane_dot [a; b; c; d] [e; f; g; h] + acc).
Proof.
  intros. unfold ref_compute. change (OP_SIMD_DOT =? OP_SIMD_DOT) with true.
  cbv iota.
  rewrite !(Z.mod_small (word4 _ _ _ _)) by apply word4_range.
  rewrite !get_signed_bytes_word4 by assumption.
  rewrite dot_product_4, (to_signed_32_int32 acc) by assumption.
  rewrite Z.add_0_r, Z.mod_mod by lia.
  rewrite to_signed_32_wrap, lane_dot_4.
  unfold wrap_signed32. change (2 ^ 32) with 4294967296.
  rewrite Z.mod_mod by lia. do 2 f_equal; lia.
Qed.

Lemma reference_device_contract : simd_dot_device (dut_sim no_fault) dut_ready.
Proof.
  split.
  - intros lo hi w Hw. exact Hw.
  - intros rs1 rs2 acc w Hw L1 L2 R1 R2 R3. cbv zeta.
    destruct (length_4_inv _ L1) as (a & b & c & d & ->).
    destruct (length_4_inv _ L2) as (e & f & g & h & ->).
    repeat match goal with
    | H : Forall _ (_ :: _) |- _ => apply Forall_cons in H; destruct H
    end.
    unfold after_vector. rewrite !pack_word_4.
    cbn [dut_sim sim_set sim_rising_edge sim_get sim_get_signed].
    set (wd := dut_set opcode_i OP_SIMD_DOT
                 (dut_set rd_i acc
                    (dut_set rs2_i (word4 e f g h)
                       (dut_set rs1_i (word4 a b c d) w)))).
    assert (Hwd : dut_ready wd) by exact Hw.
    rewrite (dut_rising_edge_ready no_fault wd Hwd).
    rewrite dut_rising_edge_ready by exact Hw.
    cbn [inputs result_q valid_q seed dut_get no_fault stuck_valid result_error].
    split; [exact Hw|]. split; [reflexivity|].
    change (inputs wd opcode_i) with OP_SIMD_DOT.
    change (inputs wd rs1_i) with (word4 a b c d mod 2 ^ 32).
    change (inputs wd rs2_i) with (word4 e f g h mod 2 ^ 32).
    change (inputs wd rd_i) with (acc mod 2 ^ 32).
    apply ref_compute_simd_dot; assumption.
Qed.

Lemma driven_values_fit_ports_witness :
  List.Forall write_fits
    (trace_of (run (dut_sim no_fault) test_simd_dot (dut_init 42))).
Proof.
  apply (driven_values_fit_ports (dut_sim no_fault) (dut_init 42)).
  apply dut_randint_in_range.
Defined.

Lemma correct_device_passes_witness :
  passed (run (dut_sim no_fault) test_simd_dot (dut_init 2024)) = true /\
  exists vs,
    length vs = 1000%nat /\
    trace_of (run (dut_sim no_fault) test_simd_dot (dut_init 2024))
      = EvStartClock 10 :: reset_events ++ concat (map vector_events vs)
        ++ passed_log.
Proof.
  apply (correct_device_passes (dut_sim no_fault) dut_ready
           (dut_randint_in_range no_fault) reference_device_contract
           (dut_init 2024)).
  reflexivity.
Defined.

End ReferenceDevice.

Import ExtractCva6Files.

#[local] Set Warnings "-clear-no-such-hyp".

(** ** Strings *)

Section Strings.

(** *** [replace] of one character *)

Lemma replace_char_cons (c0 c1 c : ascii) (s : string) :
  replace_from (String c0 "") (String c1 "") 0 (String c s)
  = String (if Ascii.eqb c0 c then c1 else c)
      (replace_from (String c0 "") (String c1 "") 0 s).
Proof.
  cbn [replace_from String.prefix String.length Nat.sub].
  destruct (ascii_dec c0 c) as [->|Hne].
  - rewrite Ascii.eqb_refl. destruct s; reflexivity.
  - destruct (Ascii.eqb_spec c0 c); [congruence | reflexivity].
Qed.

Lemma replace_char_has_char (c0 c1 x : ascii) (s : string) :
  x <> c1 -> has_char x s = false ->
  has_char x (replace (String c0 "") (String c1 "") s) = false.
Proof.
  intros Hx. unfold replace. induction s as [|c s IH]; [reflexivity|].
  rewrite replace_char_cons. cbn [has_char].
  intros [Hc Hs]%orb_false_elim. rewrite (IH Hs), orb_false_r.
  destruct (Ascii.eqb c0 c); [| exact Hc].
  destruct (Ascii.eqb_spec c1 x); congruence.
Qed.

Lemma replace_char_gone (c0 c1 : ascii) (s : string) :
  c0 <> c1 -> has_char c0 (replace (String c0 "") (String c1 "") s) = false.
Proof.
  intros Hne. unfold replace. induction s as [|c s IH]; [reflexivity|].
  rewrite replace_char_cons. cbn [has_char]. rewrite IH, orb_false_r.
  destruct (Ascii.eqb_spec c0 c) as [->|Hc].
  - destruct (Ascii.eqb_spec c1 c); congruence.
  - destruct (Ascii.eqb_spec c c0); congruence.
Qed.

Lemma replace_char_app (c0 c1 : ascii) (s t : string) :
  replace (String c0 "") (String c1 "") (s +:+ t)
  = replace (String c0 "") (String c1 "") s
    +:+ replace (String c0 "") (String c1 "") t.
Proof.
  unfold replace. induction s as [|c s IH]; [reflexivity|].
  rewrite append_cons, !replace_char_cons, append_cons, IH. reflexivity.
Qed.

Lemma replace_char_absent (c0 c1 : ascii) (s : string) :
  has_char c0 s = false -> replace (String c0 "") (String c1 "") s = s.
Proof.
  unfold replace. induction s as [|c s IH]; [reflexivity|].
  rewrite replace_char_cons. cbn [has_char].
  intros [Hc Hs]%orb_false_elim. rewrite (IH Hs).
  destruct (Ascii.eqb_spec c0 c) as [->|]; [| reflexivity].
  rewrite Ascii.eqb_refl in Hc. discriminate.
Qed.

(** *** [endswith] *)

Lemma length_append (s t : string) :
  String.length (s +:+ t) = (String.length s + String.length t)%nat.
Proof.
  induction s as [|c s IH]; [reflexivity|].
  rewrite append_cons. cbn [String.length]. rewrite IH. reflexivity.
Qed.

Lemma substring_all (s : string) : String.substring 0 (String.length s) s = s.
Proof. induction s as [|c s IH]; cbn; [reflexivity|]. rewrite IH. reflexivity. Qed.

Lemma substring_skip (s t : string) (n : nat) :
  String.substring (String.length s) n (s +:+ t) = String.substring 0 n t.
Proof.
  induction s as [|c s IH]; [reflexivity|].
  rewrite append_cons. cbn [String.length String.substring]. exact IH.
Qed.

Lemma endswith_app (suf pre : string) : endswith suf (pre +:+ suf) = true.
Proof.
  unfold endswith. cbv zeta. rewrite length_append.
  replace (String.length pre + String.length suf - String.length suf)%nat
    with (String.length pre) by lia.
  rewrite substring_skip, substring_all, String.eqb_refl, andb_true_r.
  apply Nat.leb_le. lia.
Qed.

Lemma substring_split (s : string) (n : nat) :
  (n <= String.length s)%nat ->
  s = String.substring 0 n s +:+ String.substring n (String.length s - n) s.
Proof.
  revert n. induction s as [|c s IH]; intros n Hn.
  - destruct n; reflexivity.
  - destruct n as [|n].
    + cbn [String.substring String.length Nat.sub].
      rewrite substring_all. reflexivity.
    + cbn [String.substring String.length Nat.sub]. rewrite append_cons.
      f_equal. apply IH. cbn in Hn. lia.
Qed.

Lemma endswith_inv (suf s : string) :
  endswith suf s = true -> exists pre, s = pre +:+ suf.
Proof.
  unfold endswith. cbv zeta. intros [Hle Heq]%andb_true_iff.
  apply Nat.leb_le in Hle. apply String.eqb_eq in Heq.
  exists (String.substring 0 (String.length s - String.length suf) s).
  rewrite (substring_split s (String.length s - String.length suf)) at 1 by lia.
  f_equal. rewrite <- Heq at 3. f_equal. lia.
Qed.

Lemma append_assoc (s t u : string) : (s +:+ t) +:+ u = s +:+ (t +:+ u).
Proof. induction s as [|c s IH]; [reflexivity|]. rewrite !append_cons, IH. reflexivity. Qed.

(** A line that names an RTL file still does after its backslashes are
    turned into slashes and after a prefix is put before it. *)
Lemma is_rtl_file_normalized (pre line : string) :
  is_rtl_file line = true ->
  is_rtl_file (pre +:+ replace backslash "/" line) = true.
Proof.
  unfold is_rtl_file.
  intros [[H|H]%orb_true_iff|H]%orb_true_iff;
    apply endswith_inv in H as [p ->];
    unfold backslash; rewrite replace_char_app, <- append_assoc;
    change (replace (String (ascii_of_nat 92) "") "/" ".sv") with ".sv";
    change (replace (String (ascii_of_nat 92) "") "/" ".svh") with ".svh";
    change (replace (String (ascii_of_nat 92) "") "/" ".v") with ".v";
    rewrite endswith_app; rewrite ?orb_true_r; reflexivity.
Qed.

(** *** [split] and [strip] keep a character out *)

Lemma split_cons (sep c : ascii) (s : string) :
  split sep (String c s) =
    if Ascii.eqb c sep then EmptyString :: split sep s
    else match split sep s with
         | [] => [String c EmptyString]
         | w :: ws => String c w :: ws
         end.
Proof. reflexivity. Qed.

Lemma split_no_sep (sep : ascii) (s : string) :
  Forall (fun w => has_char sep w = false) (split sep s).
Proof.
  induction s as [|c s IH]; [repeat constructor|].
  rewrite split_cons. destruct (Ascii.eqb c sep) eqn:E.
  - constructor; [reflexivity | exact IH].
  - destruct (split sep s) as [|w ws].
    + repeat constructor. cbn. rewrite E. reflexivity.
    + apply Forall_cons in IH as [Hw Hws]. constructor; [| exact Hws].
      cbn. rewrite E, Hw. reflexivity.
Qed.

Lemma lstrip_has_char (x : ascii) (s : string) :
  has_char x s = false -> has_char x (lstrip s) = false.
Proof.
  induction s as [|c s IH]; [reflexivity|]. cbn [lstrip].
  intros H. destruct (is_space c); [| exact H].
  cbn in H. apply orb_false_elim in H as [_ H]. auto.
Qed.

Lemma rstrip_has_char (x : ascii) (s : string) :
  has_char x s = false -> has_char x (rstrip s) = false.
Proof.
  induction s as [|c s IH]; [reflexivity|]. cbn [rstrip has_char].
  intros [Hc Hs]%orb_false_elim. specialize (IH Hs).
  destruct (rstrip s) as [|c' r].
  - destruct (is_space c); [reflexivity|]. cbn. rewrite Hc. reflexivity.
  - cbn [has_char] in *. rewrite Hc, IH. reflexivity.
Qed.

Lemma strip_has_char (x : ascii) (s : string) :
  has_char x s = false -> has_char x (strip s) = false.
Proof. intros H. apply rstrip_has_char, lstrip_has_char, H. Qed.

(** *** [strip] is idempotent *)

Lemma rstrip_cons (c : ascii) (s : string) :
  rstrip (String c s) =
    match rstrip s with
    | EmptyString => if is_space c then EmptyString else String c EmptyString
    | r => String c r
    end.
Proof. reflexivity. Qed.

Lemma rstrip_idem (s : string) : rstrip (rstrip s) = rstrip s.
Proof.
  induction s as [|c s IH]; [reflexivity|]. rewrite rstrip_cons.
  destruct (rstrip s) as [|c' r] eqn:E.
  - destruct (is_space c) eqn:Hc; [reflexivity|].
    rewrite rstrip_cons. cbn [rstrip]. rewrite Hc. reflexivity.
  - rewrite rstrip_cons, IH. reflexivity.
Qed.

Lemma lstrip_head (s : string) :
  lstrip s = "" \/ exists c r, lstrip s = String c r /\ is_space c = false.
Proof.
  induction s as [|c s IH]; [left; reflexivity|]. cbn [lstrip].
  destruct (is_space c) eqn:Hc; [exact IH|]. right. eauto.
Qed.

Lemma rstrip_head (c : ascii) (s : string) :
  is_space c = false -> exists r, rstrip (String c s) = String c r.
Proof.
  intros Hc. cbn [rstrip]. destruct (rstrip s); [rewrite Hc|]; eauto.
Qed.

Lemma strip_idem (s : string) : strip (strip s) = strip s.
Proof.
  unfold strip. destruct (lstrip_head s) as [->|(c & r & -> & Hc)]; [reflexivity|].
  destruct (rstrip_head c r Hc) as [r' E].
  rewrite E. cbn [lstrip]. rewrite Hc, <- E. apply rstrip_idem.
Qed.

End Strings.

Section WalkFacts.

Variables (abspath normpath : string -> string).
Variable isabs : string -> bool.
Variable path_join : string -> string -> string.
Variable fs : gmap string string.

Local Abbreviation process_file :=
  (process_flist_file abspath normpath isabs path_join fs).
Local Abbreviation process_body := (process_lines normpath isabs path_join).
Local Abbreviation extends := (extends fs).
Local Abbreviation remaining := (remaining fs).

(** ** The shared state only grows *)

Lemma extends_refl (st : walk) : extends st st.
Proof.
  split; [done|]. exists []. rewrite app_nil_r.
  split; [done|]. split; [constructor|]. intros p Hp. inversion Hp.
Qed.

Lemma extends_trans (st1 st2 st3 : walk) :
  extends st1 st2 -> extends st2 st3 -> extends st1 st3.
Proof.
  intros [S12 (n1 & E1 & D1 & H1)] [S23 (n2 & E2 & D2 & H2)].
  split; [set_solver|]. exists (n1 ++ n2).
  split; [rewrite E2, E1, app_assoc; done|]. split.
  - apply NoDup_app. split; [done|]. split; [|done].
    intros p Hp1 Hp2. destruct (H1 p Hp1) as (_ & Hin & _).
    destruct (H2 p Hp2) as (Hout & _). done.
  - intros p [Hp|Hp]%elem_of_app.
    + destruct (H1 p Hp) as (? & ? & ?). set_solver.
    + destruct (H2 p Hp) as (? & ? & ?). set_solver.
Qed.

Lemma extends_remaining (st st' : walk) :
  extends st st' -> remaining st' <= remaining st.
Proof.
  intros [Hsub _]. unfold remaining. apply subseteq_size. set_solver.
Qed.

Lemma remaining_mark (path : string) (st : walk) :
  path ∉ processed_flists st -> path ∈ dom fs ->
  remaining (log_open path (mark path st)) < remaining st.
Proof.
  intros Hout Hin. unfold remaining. cbn. apply subset_size.
  apply strict_spec_alt. split; [set_solver|].
  intros Heq. assert (path ∈ dom fs ∖ processed_flists st) as Hp by set_solver.
  rewrite <- Heq in Hp. set_solver.
Qed.

Lemma process_lines_total (recur : string -> walk -> option result)
    (cva6_repo_dir : string) (n : nat) :
  (forall ref st, remaining st < n ->
     exists files incs st', recur ref st = Some (files, incs, st') /\ extends st st') ->
  forall lines files incs st,
    remaining st < n ->
    exists files' incs' st',
      process_body recur cva6_repo_dir lines files incs st
        = Some (files', incs', st') /\ extends st st'.
Proof.
  intros Hrec lines. induction lines as [|line rest IH]; intros files incs st Hn.
  - cbn. eauto using extends_refl.
  - cbn [process_lines]. cbv zeta.
    destruct (_ || _); [apply IH; done|].
    destruct (startswith "+incdir" _); [apply IH; done|].
    destruct (startswith "-F" _).
    + match goal with |- context [recur ?r st] => destruct (Hrec r st Hn) as (sf & si & st1 & -> & Hext) end.
      cbn.
      destruct (IH (files ++ sf) (incs ++ si) st1) as (f' & i' & st2 & -> & Hext2).
      { pose proof (extends_remaining _ _ Hext). lia. }
      eauto 10 using extends_trans.
    + destruct (is_rtl_file _); apply IH; done.
Qed.

Lemma process_flist_file_total (fuel : nat) :
  forall (flist_path cva6_repo_dir target_cfg : string) (st : walk),
    remaining st < fuel ->
    exists files incs st',
      process_file fuel flist_path cva6_repo_dir target_cfg st
        = Some (files, incs, st') /\
      extends st st' /\
      normpath (abspath flist_path) ∈ processed_flists st'.
Proof.
  induction fuel as [|fuel IH]; intros flist_path cva6_repo_dir target_cfg st Hfuel;
    [lia|].
  cbn [process_flist_file]. cbv zeta.
  set (path := normpath (abspath flist_path)).
  destruct (decide (path ∈ processed_flists st)) as [Hin|Hout].
  - eauto 10 using extends_refl.
  - destruct (fs !! path) as [content|] eqn:Hfs.
    + assert (Hdom : path ∈ dom fs) by (apply elem_of_dom; eauto).
      pose proof (remaining_mark path st Hout Hdom) as Hlt.
      match goal with
      | |- context [process_lines _ _ _ ?rec ?dir ?ls [] [] ?st0] =>
          destruct (process_lines_total rec dir fuel) with (lines := ls) (files := @nil string) (incs := @nil string) (st := st0)
            as (files & incs & st' & -> & Hext)
      end.
      * intros ref st0 H0.
        destruct (IH ref cva6_repo_dir target_cfg st0 H0) as (f & i & s & -> & He & _).
        eauto.
      * lia.
      * destruct Hext as [Hsub (new & Hopened & Hnodup & Hnew)].
        exists files, incs, st'. split; [done|]. split.
        -- split; [cbn in Hsub; set_solver|].
           exists (path :: new). split; [rewrite Hopened; cbn; rewrite <- app_assoc; done|].
           split.
           ++ constructor; [|done]. intros Hp. apply Hnew in Hp as (Hp & _). cbn in Hp. set_solver.
           ++ intros p [->|Hp]%elem_of_cons.
              ** split; [done|]. split; [cbn in Hsub; set_solver|done].
              ** destruct (Hnew p Hp) as (H1 & H2 & H3). cbn in H1. set_solver.
        -- cbn in Hsub. set_solver.
    + eexists [], [], _. split; [done|]. split.
      * split; [cbn; set_solver|]. exists []. cbn. rewrite app_nil_r.
        split; [done|]. split; [constructor|]. intros p Hp. inversion Hp.
      * cbn. set_solver.
Qed.

(** ** The result does not depend on the fuel *)

Lemma process_lines_mono (recur1 recur2 : string -> walk -> option result)
    (cva6_repo_dir : string) :
  (forall ref st r, recur1 ref st = Some r -> recur2 ref st = Some r) ->
  forall lines files incs st r,
    process_body recur1 cva6_repo_dir lines files incs st = Some r ->
    process_body recur2 cva6_repo_dir lines files incs st = Some r.
Proof.
  intros Hrec lines. induction lines as [|line rest IH]; intros files incs st r;
    [done|].
  cbn [process_lines]. cbv zeta.
  destruct (_ || _); [apply IH|].
  destruct (startswith "+incdir" _); [apply IH|].
  destruct (startswith "-F" _); [| destruct (is_rtl_file _); apply IH].
  match goal with
  | |- context [recur1 ?ref st] =>
      destruct (recur1 ref st) as [[[sf si] st1]|] eqn:E1; [| done];
      rewrite (Hrec _ _ _ E1)
  end.
  cbn. apply IH.
Qed.

Lemma process_flist_file_fuel_mono (fuel fuel' : nat) :
  fuel <= fuel' ->
  forall (flist_path cva6_repo_dir target_cfg : string) (st : walk) (r : result),
    process_file fuel flist_path cva6_repo_dir target_cfg st = Some r ->
    process_file fuel' flist_path cva6_repo_dir target_cfg st = Some r.
Proof.
  revert fuel'. induction fuel as [|fuel IH]; intros fuel' Hle
    flist_path cva6_repo_dir target_cfg st r; [done|].
  destruct fuel' as [|fuel']; [lia|].
  cbn [process_flist_file]. cbv zeta.
  destruct (decide _); [done|].
  destruct (fs !! _); [| done].
  apply process_lines_mono. intros ref st0 r0. apply IH. lia.
Qed.

Lemma process_flist_file_seen (fuel : nat)
    (flist_path cva6_repo_dir target_cfg : string) (st : walk) :
  normpath (abspath flist_path) ∈ processed_flists st ->
  process_file (S fuel) flist_path cva6_repo_dir target_cfg st
    = Some ([], [], st).
Proof.
  intros Hin. cbn [process_flist_file]. cbv zeta.
  destruct (decide _); done.
Qed.

(** C10. [process_flist_file] terminates on every file system and from
    every state of [processed_flists], whatever the -F references are,
    cycles and self-references included: a number of nested calls that
    exceeds the number of files not yet processed is never needed, and more
    fuel does not change the result.  A path that is already in
    [processed_flists] returns at once with empty results and the state
    untouched.  The path of the call is in [processed_flists] afterwards,
    the set only grows, and the files opened by the call and by the calls
    below it are pairwise distinct, were not in [processed_flists] before,
    and are in it afterwards: no file list is processed more than once. *)
Theorem process_flist_file_terminates (fuel : nat)
    (flist_path cva6_repo_dir target_cfg : string) (st : walk) :
  enough_fuel fs st <= fuel ->
  exists files include_dirs st',
    process_file fuel flist_path cva6_repo_dir target_cfg st
      = Some (files, include_dirs, st') /\
    (forall fuel', fuel <= fuel' ->
       process_file fuel' flist_path cva6_repo_dir target_cfg st
         = Some (files, include_dirs, st')) /\
    (normpath (abspath flist_path) ∈ processed_flists st ->
       process_file 1 flist_path cva6_repo_dir target_cfg st
         = Some ([], [], st) /\
       files = [] /\ include_dirs = [] /\ st' = st) /\
    normpath (abspath flist_path) ∈ processed_flists st' /\
    processed_flists st ⊆ processed_flists st' /\
    exists new,
      opened st' = opened st ++ new /\ NoDup new /\
      forall p, p ∈ new ->
        (p ∉ processed_flists st) /\ (p ∈ processed_flists st') /\
        is_Some (fs !! p).
Proof.
  unfold enough_fuel. intros Hfuel.
  destruct (process_flist_file_total fuel flist_path cva6_repo_dir target_cfg st)
    as (files & incs & st' & Hrun & [Hsub (new & Hopen & Hnodup & Hnew)] & Hin);
    [unfold ExtractCva6Files.remaining; lia|].
  exists files, incs, st'. split; [exact Hrun|]. split.
  { intros fuel' Hle. eapply process_flist_file_fuel_mono; eauto. }
  split.
  { intros Hseen. split; [apply process_flist_file_seen; exact Hseen|].
    destruct fuel as [|fuel]; [lia|].
    rewrite process_flist_file_seen in Hrun by exact Hseen.
    injection Hrun as <- <- <-. done. }
  split; [exact Hin|]. split; [exact Hsub|].
  exists new. split; [exact Hopen|]. split; [exact Hnodup|].
  intros p Hp. destruct (Hnew p Hp) as (H1 & H2 & H3).
  split; [exact H1|]. split; [exact H2|]. apply elem_of_dom. exact H3.
Qed.

End WalkFacts.

(** Two file lists that reference each other, the first one itself as
    well: the walk opens each of them once. *)
Lemma process_flist_file_terminates_witness :
  exists files include_dirs st',
    posix_walk cyclic_fs 3 "/cva6/core/Flist.cva6" (walk_start ∅)
      = Some (files, include_dirs, st') /\
    (forall fuel', 3 <= fuel' ->
       posix_walk cyclic_fs fuel' "/cva6/core/Flist.cva6" (walk_start ∅)
         = Some (files, include_dirs, st')) /\
    (posix_normpath (posix_abspath "/cva6/core/Flist.cva6")
       ∈ processed_flists (walk_start ∅) ->
       posix_walk cyclic_fs 1 "/cva6/core/Flist.cva6" (walk_start ∅)
         = Some ([], [], walk_start ∅) /\
       files = [] /\ include_dirs = [] /\ st' = walk_start ∅) /\
    posix_normpath (posix_abspath "/cva6/core/Flist.cva6")
      ∈ processed_flists st' /\
    processed_flists (walk_start ∅) ⊆ processed_flists st' /\
    exists new,
      opened st' = opened (walk_start ∅) ++ new /\ NoDup new /\
      forall p, p ∈ new ->
        (p ∉ processed_flists (walk_start ∅)) /\ (p ∈ processed_flists st') /\
        is_Some (cyclic_fs !! p).
Proof.
  apply (process_flist_file_terminates
           posix_abspath posix_normpath posix_isabs posix_join cyclic_fs
           3 "/cva6/core/Flist.cva6" "/cva6" "cv32a60x" (walk_start ∅)).
  vm_compute. lia.
Defined.

(** What the walk over the cyclic file lists returns. *)
Example cyclic_walk_result :
  (fun '(files, include_dirs, st) => (files, include_dirs, opened st, stderr st))
    <$> posix_walk cyclic_fs 3 "/cva6/core/Flist.cva6" (walk_start ∅)
  = Some (["..//cva6/core/alu.sv"; "..//cva6/core/cv32a60x_pkg.sv";
           "..//cva6/core/cache_subsystem/hpdcache/rtl/src/hpdcache.sv"],
          ["/cva6/core/include/"],
          ["/cva6/core/Flist.cva6"; "/cva6/core/sub.f"],
          ["Warning: Flist not found at /cva6/missing.f"]).
Proof. vm_compute. reflexivity. Qed.

(** ** More about the walk *)

Section WalkResults.

Variables (abspath normpath : string -> string).
Variable isabs : string -> bool.
Variable path_join : string -> string -> string.
Variable fs : gmap string string.

Local Abbreviation process_file :=
  (process_flist_file abspath normpath isabs path_join fs).
Local Abbreviation process_body := (process_lines normpath isabs path_join).
Local Abbreviation accounts := (accounts fs).

(** ** The form of the paths returned *)

Lemma has_char_parent (c : ascii) (s : string) :
  has_char c ("../" +:+ s)
  = Ascii.eqb "." c || (Ascii.eqb "." c || (Ascii.eqb "/" c || has_char c s)).
Proof. reflexivity. Qed.

Lemma rtl_path_of_line (line : string) :
  has_char line_feed line = false -> is_rtl_file line = true ->
  rtl_path (if startswith "../" (replace backslash "/" line)
            then replace backslash "/" line
            else "../" +:+ replace backslash "/" line).
Proof.
  intros Hlf Hrtl.
  assert (Hbs : has_char (ascii_of_nat 92) (replace backslash "/" line) = false).
  { apply replace_char_gone. discriminate. }
  assert (Hlf' : has_char line_feed (replace backslash "/" line) = false).
  { apply replace_char_has_char; [discriminate | exact Hlf]. }
  destruct (startswith "../" (replace backslash "/" line)) eqn:Hpre.
  - split; [exact Hpre|]. split; [| split; assumption].
    exact (is_rtl_file_normalized "" line Hrtl).
  - split; [apply prefix_app|]. split; [| split].
    + exact (is_rtl_file_normalized "../" line Hrtl).
    + rewrite has_char_parent, Hbs. reflexivity.
    + rewrite has_char_parent, Hlf'. reflexivity.
Qed.

Lemma include_dir_of_line (line : string) :
  String.eqb (strip line) "" = false -> include_dir (strip line).
Proof.
  intros Hne. split.
  - intros E. rewrite E in Hne. discriminate.
  - apply strip_idem.
Qed.

Lemma process_lines_form (recur : string -> walk -> option result)
    (cva6_repo_dir : string) :
  (forall ref st f i s,
     recur ref st = Some (f, i, s) ->
     Forall rtl_path f /\ Forall include_dir i) ->
  forall lines files incs st f' i' s',
    Forall (fun l => has_char line_feed l = false) lines ->
    Forall rtl_path files -> Forall include_dir incs ->
    process_body recur cva6_repo_dir lines files incs st = Some (f', i', s') ->
    Forall rtl_path f' /\ Forall include_dir i'.
Proof.
  intros Hrec lines.
  induction lines as [|line rest IH]; intros files incs st f' i' s' Hlf Hf Hi.
  - cbn. intros [= <- <- <-]. auto.
  - apply Forall_cons in Hlf as [Hline Hrest].
    cbn [process_lines]. cbv zeta.
    destruct (_ || _); [apply IH; assumption|].
    destruct (startswith "+incdir" _).
    { destruct (String.eqb (strip (replace "+incdir+" "" (strip line))) "") eqn:E;
        apply IH; try assumption.
      apply Forall_app. split; [assumption|].
      constructor; [| constructor]. apply include_dir_of_line, E. }
    destruct (startswith "-F" _).
    { match goal with
      | |- context [recur ?ref st] =>
          destruct (recur ref st) as [[[sf si] st1]|] eqn:E; [| discriminate]
      end.
      destruct (Hrec _ _ _ _ _ E) as [Hsf Hsi]. cbn.
      apply IH; try assumption; apply Forall_app; auto. }
    destruct (is_rtl_file (strip line)) eqn:Hrtl; [| apply IH; assumption].
    apply IH; try assumption.
    apply Forall_app. split; [assumption|].
    constructor; [| constructor].
    apply rtl_path_of_line; [| exact Hrtl]. apply strip_has_char, Hline.
Qed.

Lemma process_flist_file_form (fuel : nat) :
  forall (flist_path cva6_repo_dir target_cfg : string) (st : walk)
         (files incs : list string) (st' : walk),
    process_file fuel flist_path cva6_repo_dir target_cfg st
      = Some (files, incs, st') ->
    Forall rtl_path files /\ Forall include_dir incs.
Proof.
  induction fuel as [|fuel IH];
    intros flist_path cva6_repo_dir target_cfg st files incs st'; [discriminate|].
  cbn [process_flist_file]. cbv zeta.
  destruct (decide _); [intros [= <- <- <-]; auto|].
  destruct (fs !! _); [| intros [= <- <- <-]; auto].
  apply process_lines_form; auto.
  - intros ref st0 f0 i0 s0. apply IH.
  - apply split_no_sep.
Qed.

(** ** The books of a call *)

Lemma accounts_refl (st : walk) : accounts st st.
Proof.
  exists [], []. cbn. rewrite !app_nil_r.
  repeat split; try constructor; try set_solver.
Qed.

Lemma accounts_subset (st st' : walk) :
  accounts st st' -> processed_flists st ⊆ processed_flists st'.
Proof.
  intros (new & missing & _ & _ & _ & _ & _ & _ & ->). set_solver.
Qed.

Lemma accounts_trans (st1 st2 st3 : walk) :
  accounts st1 st2 -> accounts st2 st3 -> accounts st1 st3.
Proof.
  intros H12 H23. pose proof (accounts_subset _ _ H12) as Hsub.
  destruct H12 as (n1 & m1 & O1 & E1 & Dn1 & Dm1 & Hn1 & Hm1 & P1).
  destruct H23 as (n2 & m2 & O2 & E2 & Dn2 & Dm2 & Hn2 & Hm2 & P2).
  exists (n1 ++ n2), (m1 ++ m2).
  split; [rewrite O2, O1, app_assoc; reflexivity|].
  split; [rewrite E2, E1, map_app, app_assoc; reflexivity|].
  split.
  { apply NoDup_app. split; [exact Dn1|]. split; [| exact Dn2].
    intros p Hp1 Hp2. destruct (Hn2 p Hp2) as [_ Hout].
    apply Hout. rewrite P1. set_solver. }
  split.
  { apply NoDup_app. split; [exact Dm1|]. split; [| exact Dm2].
    intros p Hp1 Hp2. destruct (Hm2 p Hp2) as [_ Hout].
    apply Hout. rewrite P1. set_solver. }
  split.
  { intros p [Hp|Hp]%elem_of_app; [apply Hn1, Hp|].
    destruct (Hn2 p Hp) as [Hs Hout]. split; [exact Hs|]. set_solver. }
  split.
  { intros p [Hp|Hp]%elem_of_app; [apply Hm1, Hp|].
    destruct (Hm2 p Hp) as [Hs Hout]. split; [exact Hs|]. set_solver. }
  rewrite P2, P1, !list_to_set_app_L. set_solver.
Qed.

Lemma process_lines_accounts (recur : string -> walk -> option result)
    (cva6_repo_dir : string) :
  (forall ref st f i s, recur ref st = Some (f, i, s) -> accounts st s) ->
  forall lines files incs st f' i' s',
    process_body recur cva6_repo_dir lines files incs st = Some (f', i', s') ->
    accounts st s'.
Proof.
  intros Hrec lines.
  induction lines as [|line rest IH]; intros files incs st f' i' s'.
  - cbn. intros [= <- <- <-]. apply accounts_refl.
  - cbn [process_lines]. cbv zeta.
    destruct (_ || _); [apply IH|].
    destruct (startswith "+incdir" _); [apply IH|].
    destruct (startswith "-F" _); [| destruct (is_rtl_file _); apply IH].
    match goal with
    | |- context [recur ?ref st] =>
        destruct (recur ref st) as [[[sf si] st1]|] eqn:E; [| discriminate]
    end.
    cbn. intros Hrest.
    eapply accounts_trans; [eapply Hrec, E | eapply IH, Hrest].
Qed.

Lemma process_flist_file_accounts (fuel : nat) :
  forall (flist_path cva6_repo_dir target_cfg : string) (st : walk)
         (files incs : list string) (st' : walk),
    process_file fuel flist_path cva6_repo_dir target_cfg st
      = Some (files, incs, st') ->
    accounts st st' /\
    normpath (abspath flist_path) ∈ processed_flists st'.
Proof.
  induction fuel as [|fuel IH];
    intros flist_path cva6_repo_dir target_cfg st files incs st'; [discriminate|].
  cbn [process_flist_file]. cbv zeta.
  set (path := normpath (abspath flist_path)).
  destruct (decide (path ∈ processed_flists st)) as [Hin|Hout].
  { intros [= <- <- <-]. split; [apply accounts_refl | exact Hin]. }
  destruct (fs !! path) as [content|] eqn:Hfs.
  - intros Hrun.
    apply process_lines_accounts in Hrun;
      [| intros ref st0 f i s Hr; eapply IH, Hr].
    pose proof (accounts_subset _ _ Hrun) as Hsub. cbn in Hsub.
    split; [| set_solver].
    destruct Hrun as (new & missing & O & E & Dn & Dm & Hn & Hm & P).
    cbn in O, E, Hn, Hm, P.
    exists (path :: new), missing.
    split; [rewrite O, <- app_assoc; reflexivity|].
    split; [exact E|]. split.
    { constructor; [| exact Dn]. intros Hp.
      destruct (Hn path Hp) as [_ H]. set_solver. }
    split; [exact Dm|]. split.
    { intros p [->|Hp]%elem_of_cons; [split; [eauto | exact Hout]|].
      destruct (Hn p Hp) as [Hs H]. split; [exact Hs | set_solver]. }
    split.
    { intros p Hp. destruct (Hm p Hp) as [Hs H]. split; [exact Hs | set_solver]. }
    rewrite P. cbn. set_solver.
  - intros [= <- <- <-]. split; [| cbn; set_solver].
    exists [], [path]. cbn. rewrite app_nil_r.
    split; [reflexivity|]. split; [reflexivity|].
    split; [constructor|]. split; [apply NoDup_singleton|].
    split; [intros p Hp; inversion Hp|].
    split; [intros p ->%list_elem_of_singleton; auto|].
    set_solver.
Qed.

(** X9. Every file path that [process_flist_file] returns starts with
    "../", ends in .sv, .svh or .v, and holds neither a backslash nor a
    line feed; every include directory it returns is non-empty and has no
    white space around it. *)
Theorem walk_returns_well_formed_paths (fuel : nat)
    (flist_path cva6_repo_dir target_cfg : string) (st : walk)
    (files include_dirs : list string) (st' : walk) :
  process_file fuel flist_path cva6_repo_dir target_cfg st
    = Some (files, include_dirs, st') ->
  Forall rtl_path files /\ Forall include_dir include_dirs.
Proof. apply process_flist_file_form. Qed.

(** X10. A call of [process_flist_file] opens and reports only paths
    that were not in [processed_flists]: each opened path exists and is
    opened once, each missing path gets exactly one warning, and
    [processed_flists] grows by exactly the opened and the missing paths. *)
Theorem walk_keeps_its_books (fuel : nat)
    (flist_path cva6_repo_dir target_cfg : string) (st : walk)
    (files include_dirs : list string) (st' : walk) :
  process_file fuel flist_path cva6_repo_dir target_cfg st
    = Some (files, include_dirs, st') ->
  exists new missing,
    opened st' = opened st ++ new /\
    stderr st' = stderr st ++ map not_found_warning missing /\
    NoDup new /\ NoDup missing /\
    (forall p, p ∈ new -> is_Some (fs !! p) /\ (p ∉ processed_flists st)) /\
    (forall p, p ∈ missing -> fs !! p = None /\ (p ∉ processed_flists st)) /\
    processed_flists st'
      = processed_flists st ∪ list_to_set new ∪ list_to_set missing.
Proof. intros Hrun. apply (process_flist_file_accounts _ _ _ _ _ _ _ _ Hrun). Qed.

(** X11. After a call has returned, a second call for the same path with
    the set that the first one left returns two empty lists at once and
    changes nothing, whatever the repository directory and the target
    configuration are. *)
Theorem second_call_returns_nothing (fuel fuel' : nat)
    (flist_path cva6_repo_dir target_cfg cva6_repo_dir' target_cfg' : string)
    (st : walk) (files include_dirs : list string) (st' : walk) :
  process_file fuel flist_path cva6_repo_dir target_cfg st
    = Some (files, include_dirs, st') ->
  process_file (S fuel') flist_path cva6_repo_dir' target_cfg' st'
    = Some ([], [], st').
Proof.
  intros Hrun. apply process_flist_file_seen.
  apply (process_flist_file_accounts _ _ _ _ _ _ _ _ Hrun).
Qed.

(** ** Files that the walk does not come to *)

Variable fs2 : gmap string string.

Local Abbreviation process_file2 :=
  (process_flist_file abspath normpath isabs path_join fs2).

Local Abbreviation agree := (agree fs fs2).

Lemma process_lines_frame (recur1 recur2 : string -> walk -> option result)
    (cva6_repo_dir : string) :
  (forall ref st f i s, recur1 ref st = Some (f, i, s) -> accounts st s) ->
  (forall ref st f i s,
     recur1 ref st = Some (f, i, s) -> agree st s ->
     recur2 ref st = Some (f, i, s)) ->
  forall lines files incs st f' i' s',
    process_body recur1 cva6_repo_dir lines files incs st = Some (f', i', s') ->
    agree st s' ->
    process_body recur2 cva6_repo_dir lines files incs st = Some (f', i', s').
Proof.
  intros Hacc Hrec lines.
  induction lines as [|line rest IH]; intros files incs st f' i' s'; [done|].
  cbn [process_lines]. cbv zeta.
  destruct (_ || _); [apply IH|].
  destruct (startswith "+incdir" _); [apply IH|].
  destruct (startswith "-F" _); [| destruct (is_rtl_file _); apply IH].
  match goal with
  | |- context [recur1 ?ref st] =>
      destruct (recur1 ref st) as [[[sf si] st1]|] eqn:E; [| discriminate]
  end.
  intros Hrest Hagree. cbn in Hrest.
  pose proof (accounts_subset _ _ (Hacc _ _ _ _ _ E)) as Hsub1.
  pose proof (accounts_subset _ _
    (process_lines_accounts _ _ Hacc _ _ _ _ _ _ _ Hrest)) as Hsub2.
  match goal with
  | |- context [recur2 ?ref st] => rewrite (Hrec ref st sf si st1 E)
  end.
  - cbn. apply IH; [exact Hrest|]. intros p Hp Hout. apply Hagree; set_solver.
  - intros p Hp Hout. apply Hagree; set_solver.
Qed.

Lemma process_flist_file_frame (fuel : nat) :
  forall (flist_path cva6_repo_dir target_cfg : string) (st : walk)
         (files incs : list string) (st' : walk),
    process_file fuel flist_path cva6_repo_dir target_cfg st
      = Some (files, incs, st') ->
    agree st st' ->
    process_file2 fuel flist_path cva6_repo_dir target_cfg st
      = Some (files, incs, st').
Proof.
  induction fuel as [|fuel IH];
    intros flist_path cva6_repo_dir target_cfg st files incs st' Hrun Hagree;
    [discriminate|].
  destruct (process_flist_file_accounts _ _ _ _ _ _ _ _ Hrun) as [_ Hin].
  revert Hrun. cbn [process_flist_file]. cbv zeta.
  set (path := normpath (abspath flist_path)) in *.
  destruct (decide (path ∈ processed_flists st)) as [|Hout]; [done|].
  rewrite (Hagree path Hin Hout).
  destruct (fs !! path) as [content|]; [| done].
  intros Hrun. eapply process_lines_frame; [| | exact Hrun |].
  - intros ref st0 f0 i0 s0 Hr.
    apply (process_flist_file_accounts _ _ _ _ _ _ _ _ Hr).
  - intros ref st0 f0 i0 s0. apply IH.
  - intros p Hp Hnot. apply Hagree; [exact Hp|]. cbn in Hnot. set_solver.
Qed.

(** X12. The result of a call depends only on the files it came to: on
    a file system that agrees with this one on every path the call added to
    [processed_flists], the call returns the same lists and the same
    state. *)
Theorem untouched_files_do_not_matter (fuel : nat)
    (flist_path cva6_repo_dir target_cfg : string) (st : walk)
    (files include_dirs : list string) (st' : walk) :
  process_file fuel flist_path cva6_repo_dir target_cfg st
    = Some (files, include_dirs, st') ->
  (forall p, p ∈ processed_flists st' -> p ∉ processed_flists st ->
             fs2 !! p = fs !! p) ->
  process_file2 fuel flist_path cva6_repo_dir target_cfg st
    = Some (files, include_dirs, st').
Proof. apply process_flist_file_frame. Qed.

End WalkResults.

Section ListFile.

(** ** The list file can be read back *)

Lemma split_whole (sep : ascii) (s : string) :
  has_char sep s = false -> split sep s = [s].
Proof.
  induction s as [|c s IH]; [reflexivity|]. cbn [has_char].
  intros [Hc Hs]%orb_false_elim. rewrite split_cons, Hc, (IH Hs). reflexivity.
Qed.

Lemma split_app_sep (sep : ascii) (s t : string) :
  has_char sep s = false ->
  split sep (s +:+ String sep t) = s :: split sep t.
Proof.
  induction s as [|c s IH].
  - intros _. change ("" +:+ String sep t) with (String sep t).
    rewrite split_cons, Ascii.eqb_refl. reflexivity.
  - cbn [has_char]. intros [Hc Hs]%orb_false_elim.
    rewrite append_cons, split_cons, Hc, (IH Hs). reflexivity.
Qed.

Lemma join_cons (sep s : string) (s' : string) (rest : list string) :
  TestMac.join sep (s :: s' :: rest)
  = s +:+ sep +:+ TestMac.join sep (s' :: rest).
Proof. reflexivity. Qed.

Lemma split_join (sep : ascii) (parts : list string) :
  parts <> [] ->
  Forall (fun w => has_char sep w = false) parts ->
  split sep (TestMac.join (String sep "") parts) = parts.
Proof.
  intros Hne Hall. induction Hall as [|p rest Hp Hrest IH]; [congruence|].
  destruct rest as [|q rest].
  - cbn [TestMac.join]. apply split_whole, Hp.
  - rewrite join_cons.
    change (String sep "" +:+ TestMac.join (String sep "") (q :: rest))
      with (String sep (TestMac.join (String sep "") (q :: rest))).
    rewrite split_app_sep by exact Hp. f_equal. apply IH. discriminate.
Qed.

End ListFile.

Section ExtractFacts.

Variables (abspath normpath : string -> string).
Variable isabs : string -> bool.
Variable path_join : string -> string -> string.
Variable fs : gmap string string.

Local Abbreviation process_file :=
  (process_flist_file abspath normpath isabs path_join fs).
Local Abbreviation extract :=
  (extract_cva6_files abspath normpath isabs path_join fs).

Local Abbreviation top_flist := (top_flist path_join).

Lemma extract_found (fuel : nat) (cva6_repo_dir target_cfg : string)
    (output_file : option string) (ex : extraction) :
  is_Some (fs !! normpath (abspath (top_flist cva6_repo_dir))) ->
  extract fuel cva6_repo_dir target_cfg output_file = Some ex ->
  exists st',
    process_file fuel (top_flist cva6_repo_dir) cva6_repo_dir target_cfg
      (walk_start ∅) = Some (ex_files ex, ex_include_dirs ex, st') /\
    ex_fs ex =
      match output_file with
      | Some out =>
          if String.eqb out "" then fs
          else <[normpath (abspath out) :=
                   TestMac.join (String line_feed "") (ex_files ex)]> fs
      | None => fs
      end.
Proof.
  intros [content Hsome]. unfold extract_cva6_files, top_flist in *. cbv zeta.
  rewrite Hsome.
  destruct (process_flist_file _ _ _ _ _ _ _ _ _ _) as [[[files incs] st']|];
    [| discriminate].
  cbn. destruct output_file as [out|]; [destruct (String.eqb out "")|];
    intros [= <-]; exists st'; split; reflexivity.
Qed.

Lemma extract_walked (fuel : nat) (cva6_repo_dir target_cfg : string)
    (output_file : option string) (files incs : list string) (st' : walk)
    (fs0 : gmap string string) :
  is_Some (fs0 !! normpath (abspath (top_flist cva6_repo_dir))) ->
  process_flist_file abspath normpath isabs path_join fs0 fuel
    (top_flist cva6_repo_dir) cva6_repo_dir target_cfg (walk_start ∅)
    = Some (files, incs, st') ->
  extract_cva6_files abspath normpath isabs path_join fs0 fuel cva6_repo_dir
    target_cfg output_file
  = Some {| ex_files := files; ex_include_dirs := incs;
            ex_fs :=
              match output_file with
              | Some out =>
                  if String.eqb out "" then fs0
                  else <[normpath (abspath out) :=
                           TestMac.join (String line_feed "") files]> fs0
              | None => fs0
              end;
            ex_stderr :=
              match output_file with
              | Some out =>
                  if String.eqb out "" then stderr st'
                  else stderr st' ++
                       ["Extracted "
                        +:+ TestMac.repr_int (Z.of_nat (length files))
                        +:+ " CVA6 files to " +:+ out]
              | None => stderr st'
              end |}.
Proof.
  intros [content Htop] Hrun. unfold extract_cva6_files, top_flist in *.
  cbv zeta. rewrite Htop, Hrun. cbn.
  destruct output_file as [out|]; [destruct (String.eqb out "")|]; reflexivity.
Qed.

(** X13. Running the extraction a second time changes nothing.  When
    Flist.cva6 exists, the walk from it has returned, and [output_file] is
    not one of the file lists that the walk came to, [extract_cva6_files]
    returns the lists of the walk, and a second call on the file system
    that the first one left returns the same lists, prints the same lines
    and leaves the same file system. *)
Theorem second_extraction_same_result (fuel : nat)
    (cva6_repo_dir target_cfg : string) (output_file : option string)
    (files include_dirs : list string) (st' : walk) :
  is_Some (fs !! normpath (abspath (top_flist cva6_repo_dir))) ->
  process_file fuel (top_flist cva6_repo_dir) cva6_repo_dir target_cfg
    (walk_start ∅) = Some (files, include_dirs, st') ->
  (forall out, output_file = Some out ->
     normpath (abspath out) ∉ processed_flists st') ->
  exists ex,
    extract fuel cva6_repo_dir target_cfg output_file = Some ex /\
    ex_files ex = files /\ ex_include_dirs ex = include_dirs /\
    extract_cva6_files abspath normpath isabs path_join (ex_fs ex) fuel
      cva6_repo_dir target_cfg output_file = Some ex.
Proof.
  intros Htop Hrun Hout.
  destruct (process_flist_file_accounts abspath normpath isabs path_join fs
              _ _ _ _ _ _ _ _ Hrun) as [_ Hmarked].
  eexists. split; [apply extract_walked; eassumption|].
  cbn [ex_files ex_include_dirs ex_fs].
  split; [reflexivity|]. split; [reflexivity|].
  set (fs2 := match output_file with Some _ => _ | None => _ end).
  assert (Hagree : forall p, p ∈ processed_flists st' -> fs2 !! p = fs !! p).
  { intros p Hp. subst fs2. destruct output_file as [out|]; [| reflexivity].
    destruct (String.eqb out ""); [reflexivity|].
    apply lookup_insert_ne. intros <-. exact (Hout out eq_refl Hp). }
  rewrite (extract_walked fuel cva6_repo_dir target_cfg output_file files
             include_dirs st' fs2).
  - f_equal. f_equal. subst fs2.
    destruct output_file as [out|]; [| reflexivity].
    destruct (String.eqb out ""); [reflexivity|].
    apply insert_insert_eq.
  - rewrite (Hagree _ Hmarked). exact Htop.
  - apply (process_flist_file_frame abspath normpath isabs path_join fs fs2
             _ _ _ _ _ _ _ _ Hrun).
    intros p Hp _. apply Hagree, Hp.
Qed.

(** X14. When Flist.cva6 exists and an output file is named, the file
    written holds the returned paths one per line: it is empty when no path
    was found, and otherwise splitting it at the line feeds gives back
    exactly the list returned. *)
Theorem list_file_reads_back (fuel : nat) (cva6_repo_dir target_cfg : string)
    (out : string) (ex : extraction) :
  is_Some (fs !! normpath (abspath (top_flist cva6_repo_dir))) ->
  out <> "" ->
  extract fuel cva6_repo_dir target_cfg (Some out) = Some ex ->
  exists content,
    ex_fs ex !! normpath (abspath out) = Some content /\
    (ex_files ex = [] -> content = "") /\
    (ex_files ex <> [] -> split line_feed content = ex_files ex).
Proof.
  intros Htop Hout Hex.
  destruct (extract_found _ _ _ _ _ Htop Hex) as (st' & Hrun & Hfs).
  destruct (String.eqb_spec out ""); [congruence|].
  exists (TestMac.join (String line_feed "") (ex_files ex)).
  split; [rewrite Hfs; apply lookup_insert_eq|]. split.
  - intros ->. reflexivity.
  - intros Hne. apply split_join; [exact Hne|].
    destruct (process_flist_file_form _ _ _ _ _ _ _ _ _ _ _ _ _ Hrun) as [Hf _].
    eapply Forall_impl; [exact Hf|]. intros f (_ & _ & _ & Hlf). exact Hlf.
Qed.

End ExtractFacts.

(** ** The walk and the extraction on the cyclic file lists *)

Lemma walk_returns_well_formed_paths_witness :
  Forall rtl_path
    ["..//cva6/core/alu.sv"; "..//cva6/core/cv32a60x_pkg.sv";
     "..//cva6/core/cache_subsystem/hpdcache/rtl/src/hpdcache.sv"] /\
  Forall include_dir ["/cva6/core/include/"].
Proof.
  eapply (walk_returns_well_formed_paths
            posix_abspath posix_normpath posix_isabs posix_join cyclic_fs
            3 "/cva6/core/Flist.cva6" "/cva6" "cv32a60x" (walk_start ∅)).
  vm_compute. reflexivity.
Defined.

Lemma walk_keeps_its_books_witness :
  exists files include_dirs st',
    posix_walk cyclic_fs 3 "/cva6/core/Flist.cva6" (walk_start ∅)
      = Some (files, include_dirs, st') /\
    exists new missing,
      opened st' = opened (walk_start ∅) ++ new /\
      stderr st' = stderr (walk_start ∅) ++ map not_found_warning missing /\
      NoDup new /\ NoDup missing /\
      (forall p, p ∈ new ->
         is_Some (cyclic_fs !! p) /\ (p ∉ processed_flists (walk_start ∅))) /\
      (forall p, p ∈ missing ->
         cyclic_fs !! p = None /\ (p ∉ processed_flists (walk_start ∅))) /\
      processed_flists st'
        = processed_flists (walk_start ∅) ∪ list_to_set new
          ∪ list_to_set missing.
Proof.
  eexists _, _, _. split; [vm_compute; reflexivity|].
  eapply (walk_keeps_its_books
            posix_abspath posix_normpath posix_isabs posix_join cyclic_fs
            3 "/cva6/core/Flist.cva6" "/cva6" "cv32a60x" (walk_start ∅)).
  vm_compute. reflexivity.
Defined.

Lemma second_call_returns_nothing_witness :
  exists files include_dirs st',
    posix_walk cyclic_fs 3 "/cva6/core/Flist.cva6" (walk_start ∅)
      = Some (files, include_dirs, st') /\
    posix_walk cyclic_fs 1 "/cva6/core/Flist.cva6" st' = Some ([], [], st').
Proof.
  eexists _, _, _. split; [vm_compute; reflexivity|].
  eapply (second_call_returns_nothing
            posix_abspath posix_normpath posix_isabs posix_join cyclic_fs
            3 0 "/cva6/core/Flist.cva6" "/cva6" "cv32a60x" "/cva6" "cv32a60x"
            (walk_start ∅)).
  vm_compute. reflexivity.
Defined.

Lemma untouched_files_do_not_matter_witness :
  exists files include_dirs st',
    posix_walk cyclic_fs 3 "/cva6/core/Flist.cva6" (walk_start ∅)
      = Some (files, include_dirs, st') /\
    posix_walk (<["/cva6/core/unused.f" := "-F core/Flist.cva6"]> cyclic_fs)
      3 "/cva6/core/Flist.cva6" (walk_start ∅)
      = Some (files, include_dirs, st').
Proof.
  eexists _, _, _. split; [vm_compute; reflexivity|].
  eapply (untouched_files_do_not_matter
            posix_abspath posix_normpath posix_isabs posix_join cyclic_fs
            (<["/cva6/core/unused.f" := "-F core/Flist.cva6"]> cyclic_fs)
            3 "/cva6/core/Flist.cva6" "/cva6" "cv32a60x" (walk_start ∅)).
  - vm_compute. reflexivity.
  - intros p Hp _. apply lookup_insert_ne. intros <-.
    vm_compute in Hp. discriminate Hp.
Defined.

Lemma list_file_reads_back_witness :
  exists ex content,
    posix_extract cyclic_fs 3 (Some "cva6_files.list") = Some ex /\
    ex_fs ex !! posix_normpath (posix_abspath "cva6_files.list") = Some content /\
    (ex_files ex = [] -> content = "") /\
    (ex_files ex <> [] -> split line_feed content = ex_files ex).
Proof.
  destruct (posix_extract cyclic_fs 3 (Some "cva6_files.list")) as [ex|] eqn:E.
  - exists ex.
    destruct (list_file_reads_back
                posix_abspath posix_normpath posix_isabs posix_join cyclic_fs
                3 "/cva6" "cv32a60x" "cva6_files.list" ex) as [content H].
    + vm_compute. eauto.
    + discriminate.
    + exact E.
    + exists content. split; [reflexivity | exact H].
  - vm_compute in E. discriminate E.
Defined.

Lemma second_extraction_same_result_witness :
  exists ex,
    posix_extract cyclic_fs 3 (Some "cva6_files.list") = Some ex /\
    ex_files ex
      = ["..//cva6/core/alu.sv"; "..//cva6/core/cv32a60x_pkg.sv";
         "..//cva6/core/cache_subsystem/hpdcache/rtl/src/hpdcache.sv"] /\
    ex_include_dirs ex = ["/cva6/core/include/"] /\
    posix_extract (ex_fs ex) 3 (Some "cva6_files.list") = Some ex.
Proof.
  eapply (second_extraction_same_result
            posix_abspath posix_normpath posix_isabs posix_join cyclic_fs
            3 "/cva6" "cv32a60x" (Some "cva6_files.list")).
  - vm_compute. eauto.
  - vm_compute. reflexivity.
  - intros out [= <-] Hin. vm_compute in Hin. discriminate Hin.
Defined.

(** The condition on [output_file] is needed: when a file list names the
    list file as a file list, the first call warns that it is missing and
    writes it, and the second call reads it and returns the path twice. *)
Example second_extraction_reads_list_file :
  (ex ← posix_extract feedback_fs 3 (Some "out.list");
   ex' ← posix_extract (ex_fs ex) 3 (Some "out.list");
   Some (ex_files ex, ex_stderr ex, ex_files ex'))
  = Some (["../core/alu.sv"],
          ["Warning: Flist not found at /work/out.list";
           "Extracted 1 CVA6 files to out.list"],
          ["../core/alu.sv"; "../core/alu.sv"]).
Proof. vm_compute. reflexivity. Qed.
